(** * Demo-CC: the JavaScript metrics plugin (js-plugin/server.js)

    A shallow embedding of the metrics engine of [server.js]: the Babel
    syntax tree it consumes, Babel's enter/exit traversal, the cognitive
    complexity scorer [calculateCognitiveComplexity], the function collector
    [calculateMetrics], the archive helpers [topLevelName] and
    [detectZipRootFolder], the per-file boundary [analyzeFileAt] with the
    directory walk of [/analyze-zip], and the report of [/analyze-code]. *)

From Stdlib Require Import ZArith List String Ascii Bool Lia Floats.
From Stdlib Require Import Sorted Permutation.
Import ListNotations.

Open Scope string_scope.
Open Scope Z_scope.

Set Warnings "-register-all".

(** ** JavaScript exceptions

    A JavaScript call either returns a value or throws; [Throw] carries
    [error.message]. *)

Inductive result (A : Type) : Type :=
| Ok (a : A)
| Throw (message : string).

Arguments Ok {A} a.
Arguments Throw {A} message.

Definition bind {A B : Type} (r : result A) (k : A -> result B) : result B :=
  match r with
  | Ok a => k a
  | Throw m => Throw m
  end.

Notation "x <- r ;; k" := (bind r (fun x => k))
  (at level 61, r at next level, right associativity).
Notation "' pat <- r ;; k" := (bind r (fun x => match x with pat => k end))
  (at level 61, pat pattern, r at next level, right associativity).

(** ** The Babel syntax tree

    A Babel node is an object with a [type] string, a few scalar fields and
    child nodes. A child sits either directly in a field ([node.alternate])
    or in a list-valued field ([node.body[2]]); Babel's [path.key] is the
    field name in the first case and the index in the second. [children]
    lists the children present (absent optional children are left out), in
    the order of Babel's [VISITOR_KEYS], which is the order [traverse]
    visits them in. *)

Inductive Key : Type :=
| Field (name : string)
| Index (listKey : string) (i : nat).

(** [loc.start.line] and [loc.end.line] *)
Record SourceLocation : Type := mkLoc { loc_start : Z; loc_end : Z }.

Inductive Node : Type :=
  mkNode {
      type : string;
      name : option string;        (* Identifier.name *)
      operator : option string;    (* LogicalExpression.operator, ... *)
      start : option nat;
      end_ : option nat;
      loc : option SourceLocation;
      children : list (Key * Node)
    }.

Definition key_is (k : Key) (f : string) : bool :=
  match k with
  | Field g => String.eqb g f
  | Index _ _ => false
  end.

(** [node.f] for a field that holds a single node; [None] is JavaScript's
    [null]/[undefined]. *)
Fixpoint lookup_field (f : string) (cs : list (Key * Node)) : option Node :=
  match cs with
  | [] => None
  | (k, c) :: cs' => if key_is k f then Some c else lookup_field f cs'
  end.

Definition get (n : Node) (f : string) : option Node :=
  lookup_field f (children n).

(** [node.f] where the code goes on to read a property of it: reading a
    property of [undefined] throws a TypeError. *)
Definition get_required (n : Node) (f : string) : result Node :=
  match get n f with
  | Some c => Ok c
  | None => Throw ("Cannot read properties of undefined (reading '" ++ f ++ "')")
  end.

(** A [NodePath]: the node, its key in the parent, and the parent's path. *)
Inductive NodePath : Type :=
  mkPath {
      node : Node;
      key : Key;
      parentPath : option NodePath
    }.

Definition has_type (t : string) (p : NodePath) : bool :=
  String.eqb (type (node p)) t.

(** Babel's [Function] alias. *)
Definition function_types : list string :=
  ["FunctionDeclaration"; "FunctionExpression"; "ObjectMethod";
   "ArrowFunctionExpression"; "ClassMethod"; "ClassPrivateMethod"].

Definition isFunction (p : NodePath) : bool :=
  existsb (String.eqb (type (node p))) function_types.

Definition isIfStatement := has_type "IfStatement".
Definition isSwitchStatement := has_type "SwitchStatement".
Definition isSwitchCase := has_type "SwitchCase".
Definition isForStatement := has_type "ForStatement".
Definition isForInStatement := has_type "ForInStatement".
Definition isForOfStatement := has_type "ForOfStatement".
Definition isWhileStatement := has_type "WhileStatement".
Definition isDoWhileStatement := has_type "DoWhileStatement".
Definition isCatchClause := has_type "CatchClause".
Definition isLogicalExpression := has_type "LogicalExpression".
Definition isConditionalExpression := has_type "ConditionalExpression".
Definition isCallExpression := has_type "CallExpression".
Definition isBreakStatement := has_type "BreakStatement".
Definition isContinueStatement := has_type "ContinueStatement".
Definition isVariableDeclarator := has_type "VariableDeclarator".
Definition isObjectProperty := has_type "ObjectProperty".
Definition isClassMethod := has_type "ClassMethod".
Definition isObjectMethod := has_type "ObjectMethod".

(** [par?.isT()] on an optional path. *)
Definition opt_is (test : NodePath -> bool) (p : option NodePath) : bool :=
  match p with
  | Some q => test q
  | None => false
  end.

(** ** Babel's [traverse]

    [traverseNode] visits the children of a node in order. Visiting a path
    calls [enter]; when [enter] called [path.skip()] (the flag it returns)
    neither the children nor [exit] are run; otherwise the children are
    visited and then [exit] is called. The visitor's mutable closure
    variables are the threaded state [S]. *)

Section Traverse.

Context {S : Type}.
Variable enter : NodePath -> S -> result (S * bool).
Variable exit : NodePath -> S -> S.

Fixpoint visit (parent : option NodePath) (k : Key) (n : Node) (s : S)
  {struct n} : result S :=
  let p := mkPath n k parent in
  '(s1, skipped) <- enter p s ;;
  if skipped : bool then Ok s1
  else
    s2 <- (fix visit_all (cs : list (Key * Node)) (s : S) : result S :=
             match cs with
             | [] => Ok s
             | (k', c) :: cs' =>
                 s' <- visit (Some p) k' c s ;; visit_all cs' s'
             end) (children n) s1 ;;
    Ok (exit p s2).

Fixpoint visit_all (parent : option NodePath) (cs : list (Key * Node)) (s : S)
  : result S :=
  match cs with
  | [] => Ok s
  | (k', c) :: cs' =>
      s' <- visit parent k' c s ;; visit_all parent cs' s'
  end.

(** [path.traverse(visitor)] and [traverse(ast, visitor)]: the node itself
    is not visited, its children are. *)
Definition traverseNode (p : NodePath) (s : S) : result S :=
  visit_all (Some p) (children (node p)) s.

End Traverse.

(** ** The complexity scorer: [calculateCognitiveComplexity]

    The closure variables [complexity] and [nesting] of the source are the
    record threaded through the traversal. *)

Record Counters : Type := mkCounters { complexity : Z; nesting : Z }.

(** [complexity += 1 + nesting] *)
Definition addStructural (c : Counters) : Counters :=
  mkCounters (complexity c + (1 + nesting c)) (nesting c).

(** [complexity += 1] *)
Definition addFundamental (c : Counters) : Counters :=
  mkCounters (complexity c + 1) (nesting c).

(** [nesting++] and [nesting--] *)
Definition incNesting (c : Counters) : Counters :=
  mkCounters (complexity c) (nesting c + 1).

Definition decNesting (c : Counters) : Counters :=
  mkCounters (complexity c) (nesting c - 1).

(** [complexity += 1 + (nesting - 1)], the charge of an else-if. *)
Definition addElseIf (c : Counters) : Counters :=
  mkCounters (complexity c + (1 + (nesting c - 1))) (nesting c).

(** JavaScript truthiness of a string-or-null: [null] and the empty string
    are falsy. *)
Definition truthy (s : option string) : bool :=
  match s with
  | Some EmptyString => false
  | Some _ => true
  | None => false
  end.

(** [a === b] on values that are strings or [undefined]/[null]. *)
Definition opt_eqb (a b : option string) : bool :=
  match a, b with
  | Some x, Some y => String.eqb x y
  | None, None => true
  | _, _ => false
  end.

Definition is_some {A : Type} (o : option A) : bool :=
  match o with
  | Some _ => true
  | None => false
  end.

(** [path.key === 'alternate' && path.parentPath.isIfStatement()]. Inside a
    traversal every visited path has a parent path. *)
Definition isElseIf (path : NodePath) : bool :=
  key_is (key path) "alternate" && opt_is isIfStatement (parentPath path).

Definition isLoop (path : NodePath) : bool :=
  isForStatement path || isForInStatement path || isForOfStatement path ||
  isWhileStatement path || isDoWhileStatement path.

(** [op === '&&' || op === '||' || op === '??'] *)
Definition counted_operator (op : option string) : bool :=
  opt_eqb op (Some "&&") || opt_eqb op (Some "||") || opt_eqb op (Some "??").

(** [path.parentPath.node.operator] *)
Definition parent_operator (path : NodePath) : option string :=
  match parentPath path with
  | Some q => operator (node q)
  | None => None
  end.

(** The recursion rule: a call whose callee is the identifier
    [functionName]. *)
Definition enter_call (functionName : option string) (path : NodePath)
  (c : Counters) : result Counters :=
  if isCallExpression path && truthy functionName then
    callee <- get_required (node path) "callee" ;;
    if String.eqb (type callee) "Identifier"
       && opt_eqb (name callee) functionName
    then Ok (addFundamental c)
    else Ok c
  else Ok c.

(** [break LABEL] and [continue LABEL]. *)
Definition enter_jump (path : NodePath) (c : Counters) : Counters :=
  if (isBreakStatement path || isContinueStatement path)
     && is_some (get (node path) "label")
  then addFundamental c
  else c.

(** The [if / else if] cascade over the control-flow kinds. *)
Definition enter_control (path : NodePath) (c : Counters) : Counters :=
  if isIfStatement path then
    let c1 :=
      if isElseIf path then addElseIf c
      else incNesting (addStructural c) in
    match get (node path) "alternate" with
    | Some alt =>
        if negb (String.eqb (type alt) "IfStatement")
        then addFundamental c1
        else c1
    | None => c1
    end
  else if isSwitchStatement path then incNesting c
  else if isSwitchCase path then addFundamental c
  else if isLoop path then incNesting (addStructural c)
  else if isCatchClause path then incNesting (addStructural c)
  else if isLogicalExpression path then
    let op := operator (node path) in
    if counted_operator op then
      if negb (opt_is isLogicalExpression (parentPath path))
         || negb (opt_eqb (parent_operator path) op)
      then addFundamental c
      else c
    else c
  else if isConditionalExpression path then incNesting (addStructural c)
  else c.

Definition score_enter (functionName : option string) (path : NodePath)
  (c : Counters) : result (Counters * bool) :=
  (* every visited path is a descendant of funcPath, so [path !== funcPath] *)
  if isFunction path then Ok (c, true)
  else
    c1 <- enter_call functionName path c ;;
    Ok (enter_control path (enter_jump path c1), false).

Definition score_exit (path : NodePath) (c : Counters) : Counters :=
  if isIfStatement path then
    if negb (isElseIf path) then decNesting c else c
  else if isSwitchStatement path || isLoop path || isCatchClause path
          || isConditionalExpression path
  then decNesting c
  else c.

Definition calculateCognitiveComplexity (funcPath : NodePath)
  (baseNesting : Z) (functionName : option string) : result Z :=
  c <- traverseNode (score_enter functionName) score_exit funcPath
         (mkCounters 0 baseNesting) ;;
  Ok (complexity c).

(** ** Source text

    A source text is a string of 8-bit code units. *)

(** [s.split('\n')]: always at least one piece. *)
Fixpoint split_lines (s : string) : list string :=
  match s with
  | EmptyString => [EmptyString]
  | String c s' =>
      if Ascii.eqb c "010" then EmptyString :: split_lines s'
      else
        match split_lines s' with
        | l :: ls => String c l :: ls
        | [] => [String c EmptyString]
        end
  end.

(** The white space and line terminators [trim] strips, below U+0100. *)
Definition is_space (c : ascii) : bool :=
  let n := nat_of_ascii c in
  (Nat.eqb n 9 || Nat.eqb n 10 || Nat.eqb n 11 || Nat.eqb n 12
   || Nat.eqb n 13 || Nat.eqb n 32 || Nat.eqb n 160)%bool.

(** [l.trim()] as a condition: the trimmed line is not empty. *)
Fixpoint trim_truthy (l : string) : bool :=
  match l with
  | EmptyString => false
  | String c l' => negb (is_space c) || trim_truthy l'
  end.

(** [text.split('\n').length] *)
Definition count_lines (text : string) : Z :=
  Z.of_nat (List.length (split_lines text)).

(** [text.split('\n').filter(l => l.trim()).length] *)
Definition count_nonblank_lines (text : string) : Z :=
  Z.of_nat (List.length (filter trim_truthy (split_lines text))).

(** [code.slice(from, to)] for indices that are not negative. *)
Definition slice (code : string) (from to : nat) : string :=
  substring from (to - from) code.

(** ** The function collector: [calculateMetrics] *)

Record FunctionRecord : Type :=
  mkFunctionRecord {
      f_name : option string;      (* [name]; [None] is [undefined] *)
      f_NLOC : Z;
      f_CC : Z;
      f_lineStart : option Z;      (* [None] is [null] *)
      f_lineEnd : option Z
    }.

Record Metrics : Type :=
  mkMetrics {
      LOC : Z;
      NLOC : Z;
      NOF : Z;
      functions : list FunctionRecord
    }.

(** [fnNode.id?.name ?? 'anonymous'] *)
Definition own_name (fnNode : Node) : string :=
  match get fnNode "id" with
  | Some id =>
      match name id with
      | Some s => s
      | None => "anonymous"
      end
  | None => "anonymous"
  end.

(** [par?.isT() && par.node.f.type === 'Identifier'], and the node
    [par.node.f] when the test holds. *)
Definition parent_identifier (test : NodePath -> bool) (f : string)
  (par : option NodePath) : result (option Node) :=
  match par with
  | Some q =>
      if test q then
        target <- get_required (node q) f ;;
        if String.eqb (type target) "Identifier" then Ok (Some target)
        else Ok None
      else Ok None
  | None => Ok None
  end.

(** The name resolution block of [calculateMetrics]. *)
Definition resolveName (p : NodePath) : result (option string) :=
  let fnNode := node p in
  let functionName := own_name fnNode in
  if String.eqb functionName "anonymous" then
    let par := parentPath p in
    binding <- parent_identifier isVariableDeclarator "id" par ;;
    match binding with
    | Some id => Ok (name id)
    | None =>
        property <- parent_identifier isObjectProperty "key" par ;;
        match property with
        | Some k => Ok (name k)
        | None =>
            if isClassMethod p || isObjectMethod p then
              match get fnNode "key" with
              | Some k =>
                  if String.eqb (type k) "Identifier" then Ok (name k)
                  else Ok (Some functionName)
              | None => Ok (Some functionName)
              end
            else Ok (Some functionName)
        end
    end
  else Ok (Some functionName).

(** The ancestor kinds that count towards [baseNesting]. *)
Definition opens_nesting (curr : NodePath) : bool :=
  isFunction curr || isIfStatement curr
  || isForStatement curr || isForInStatement curr || isForOfStatement curr
  || isWhileStatement curr || isDoWhileStatement curr
  || isSwitchStatement curr || isCatchClause curr.

(** The [while (curr)] loop over the ancestors. *)
Fixpoint count_ancestors (curr : NodePath) (baseNesting : Z) : Z :=
  match curr with
  | mkPath _ _ up =>
      let baseNesting :=
        if opens_nesting curr then baseNesting + 1 else baseNesting in
      match up with
      | Some next => count_ancestors next baseNesting
      | None => baseNesting
      end
  end.

Definition baseNestingOf (p : NodePath) : Z :=
  match parentPath p with
  | Some curr => count_ancestors curr 0
  | None => 0
  end.

(** [fnNode.loc?.start?.line ?? null] *)
Definition lineOf (pick : SourceLocation -> Z) (fnNode : Node) : option Z :=
  option_map pick (loc fnNode).

(** The [enter] visitor of [calculateMetrics]; it never skips. *)
Definition collect_enter (code : string) (p : NodePath) (metrics : Metrics)
  : result (Metrics * bool) :=
  if negb (isFunction p) then Ok (metrics, false)
  else
    let fnNode := node p in
    functionName <- resolveName p ;;
    let from := match start fnNode with Some i => i | None => O end in
    let to := match end_ fnNode with Some i => i | None => String.length code end in
    let functionCode := slice code from to in
    let baseNesting := baseNestingOf p in
    cc <- calculateCognitiveComplexity p baseNesting functionName ;;
    Ok (mkMetrics (LOC metrics) (NLOC metrics) (NOF metrics + 1)
          (functions metrics
             ++ [mkFunctionRecord functionName
                   (count_nonblank_lines functionCode) cc
                   (lineOf loc_start fnNode) (lineOf loc_end fnNode)]),
        false).

(** [traverse(ast, visitor)] from the root. Before the first visitor call
    [@babel/traverse] builds the scopes of the program: [crawl] collects the
    bindings of the whole tree and throws a TypeError on a tree it refuses
    (a duplicate declaration, for one), although the parser returned it.
    The walk itself starts at the children of the File node, which have no
    parent path; the scopes are built once, so [funcPath.traverse] builds
    none. *)
Definition traverse {S : Type} (crawl : Node -> result unit)
  (enter : NodePath -> S -> result (S * bool))
  (exit : NodePath -> S -> S) (ast : Node) (s : S) : result S :=
  match crawl ast with
  | Ok _ => visit_all enter exit None (children ast) s
  | Throw message => Throw message
  end.

Section Parser.

(** [@babel/parser]: a File node, or a thrown SyntaxError. *)
Variable parse : string -> result Node.

(** The scope builder of [@babel/traverse]. *)
Variable crawl : Node -> result unit.

Definition calculateMetrics (code : string) : result Metrics :=
  ast <- parse code ;;
  let metrics :=
    mkMetrics (count_lines code) (count_nonblank_lines code) 0 [] in
  traverse crawl (collect_enter code) (fun _ m => m) ast metrics.

End Parser.

(** ** Archive root detection: [topLevelName], [detectZipRootFolder] *)

(** An entry of the archive as [adm-zip] presents it. *)
Record ZipEntry : Type :=
  mkEntry { entryName : string; isDirectory : bool }.

Definition is_slash (c : ascii) : bool := Ascii.eqb c "/".

Fixpoint drop_slashes (s : string) : string :=
  match s with
  | String c s' => if is_slash c then drop_slashes s' else s
  | EmptyString => s
  end.

(** [entryName.replace(/^\.\/+/, '')] *)
Definition strip_dot_slash (s : string) : string :=
  match s with
  | String c1 (String c2 s') =>
      if Ascii.eqb c1 "." && is_slash c2 then drop_slashes s' else s
  | _ => s
  end.

(** [clean.split('/')[0]] *)
Fixpoint first_segment (s : string) : string :=
  match s with
  | EmptyString => EmptyString
  | String c s' => if is_slash c then EmptyString else String c (first_segment s')
  end.

(** [s.includes('/')] *)
Fixpoint includes_slash (s : string) : bool :=
  match s with
  | EmptyString => false
  | String c s' => is_slash c || includes_slash s'
  end.

Definition topLevelName (entryName : string) : string :=
  first_segment (strip_dot_slash entryName).

(** A JavaScript [Map] from strings to numbers: entries in insertion
    order, one per key. *)
Definition Map : Type := list (string * Z).

Fixpoint Map_get (m : Map) (k : string) : option Z :=
  match m with
  | [] => None
  | (k', v) :: m' => if String.eqb k' k then Some v else Map_get m' k
  end.

Fixpoint Map_set (m : Map) (k : string) (v : Z) : Map :=
  match m with
  | [] => [(k, v)]
  | (k', v') :: m' =>
      if String.eqb k' k then (k', v) :: m' else (k', v') :: Map_set m' k v
  end.

Definition Map_keys (m : Map) : list string := map fst m.

Definition Map_size (m : Map) : nat := List.length m.

(** Whether the loop body reaches [counts.set] for an entry: the two
    [continue] guards. *)
Definition counted (e : ZipEntry) : bool :=
  negb (String.eqb (entryName e) "") && negb (isDirectory e)
  && negb (String.eqb (topLevelName (entryName e)) "")
  && negb (String.eqb (topLevelName (entryName e)) "__MACOSX").

(** One turn of the [for ... of zip.getEntries()] loop on the pair
    [(counts, hasTopLevelFiles)]. *)
Definition detect_step (st : Map * bool) (e : ZipEntry) : Map * bool :=
  let '(counts, hasTopLevelFiles) := st in
  if String.eqb (entryName e) "" || isDirectory e then st
  else
    let top := topLevelName (entryName e) in
    if String.eqb top "" || String.eqb top "__MACOSX" then st
    else
      let hasTopLevelFiles :=
        if negb (includes_slash (entryName e)) then true
        else hasTopLevelFiles in
      (* [counts.get(top) || 0] *)
      let old := match Map_get counts top with
                 | Some v => v
                 | None => 0
                 end in
      (Map_set counts top (old + 1), hasTopLevelFiles).

Definition detectZipRootFolder (entries : list ZipEntry) : option string :=
  let '(counts, hasTopLevelFiles) := fold_left detect_step entries ([], false) in
  if hasTopLevelFiles then None
  else if Nat.eqb (Map_size counts) 1 then
    match Map_keys counts with
    | k :: _ => Some k
    | [] => None
    end
  else None.

(** ** The per-file boundary and the directory walk of [/analyze-zip] *)

(** The extracted tree as [fs] shows it: [readdirSync] lists a directory in
    order, [statSync(...).isDirectory()] tells the two kinds apart, and
    [readFileSync] returns the text of a file or throws. *)
Inductive FsNode : Type :=
| FsFile (file : string) (content : result string)
| FsDir (file : string) (entries : list FsNode).

(** A path as its segments. *)
Definition Path : Type := list string.

(** [path.relative(from, to)] on normalized absolute paths. *)
Fixpoint relative (from to : Path) : Path :=
  match from, to with
  | f :: from', t :: to' =>
      if String.eqb f t then relative from' to'
      else (repeat ".." (List.length from) ++ to)%list
  | [], _ => to
  | _ :: _, [] => repeat ".." (List.length from)
  end.

(** [path.basename(p)] *)
Definition basename (p : Path) : string := last p "".

(** A relative path with [path.sep] replaced by ['/']. *)
Definition slashed (p : Path) : string := String.concat "/" p.

(** The result object of one file: [metrics] or [error] may be absent. *)
Record FileResult : Type :=
  mkFileResult {
      fileName : string;
      metrics : option Metrics;
      error : option string
    }.

(** [s.endsWith(suffix)] and [s.startsWith(prefix)] *)
Definition startsWith (s pre : string) : bool := String.prefix pre s.

Definition endsWith (s suffix : string) : bool :=
  (String.length suffix <=? String.length s)%nat
  && String.eqb
       (substring (String.length s - String.length suffix)
          (String.length suffix) s)
       suffix.

Definition isCodeFile (file : string) : bool :=
  endsWith file ".jsx" || endsWith file ".js" || endsWith file ".ts"
  || endsWith file ".tsx".

(** The folders the walk does not descend into. *)
Definition ignored_folder (file : string) : bool :=
  String.eqb file "node_modules" || startsWith file ".git"
  || String.eqb file "dist" || String.eqb file "build".

Section Batch.

Variable parse : string -> result Node.
Variable crawl : Node -> result unit.

(** [analyzeFileAt]: the [try] block reads and measures, the [catch] block
    turns whatever was thrown into the error variant. *)
Definition analyzeFileAt (content : result string) (filePath : Path)
  (rootPathForRel : option Path) : FileResult :=
  let rel := match rootPathForRel with
             | Some root => slashed (relative root filePath)
             | None => basename filePath
             end in
  match (code <- content ;; calculateMetrics parse crawl code) with
  | Ok m => mkFileResult rel (Some m) None
  | Throw message => mkFileResult rel None (Some message)
  end.

(** [processDirectory]: one [forEach] turn on the entry [e] of [directory],
    pushing onto [results]. *)
Fixpoint processEntry (rootPath directory : Path) (e : FsNode)
  (results : list FileResult) {struct e} : list FileResult :=
  match e with
  | FsDir file entries =>
      if ignored_folder file then results
      else
        (fix forEach (es : list FsNode) (results : list FileResult)
           : list FileResult :=
           match es with
           | [] => results
           | e' :: es' =>
               forEach es'
                 (processEntry rootPath (directory ++ [file])%list e' results)
           end) entries results
  | FsFile file content =>
      if isCodeFile file
      then (results
              ++ [analyzeFileAt content (directory ++ [file]) (Some rootPath)])%list
      else results
  end.

(** [processDirectory(rootPath)] on the listing of the root. *)
Definition processDirectory (rootPath : Path) (entries : list FsNode)
  (results : list FileResult) : list FileResult :=
  fold_left (fun rs e => processEntry rootPath rootPath e rs) entries results.

End Batch.

(** ** The report of [/analyze-code]

    Scores and counts are integers, kept exact here; the mean is a
    JavaScript number, an IEEE 754 binary64 float. *)

(** The number with integer value [z]. *)
Definition float_of_Z (z : Z) : float :=
  SF2Prim (binary_normalize prec emax z 0 false).

(** The integer [n] for which [n / 100] is nearest to [m * 2^e], the larger
    one on a tie: [floor (100 * m * 2^e + 1/2)]. *)
Definition hundredths (m : positive) (e : Z) : Z :=
  if 0 <=? e then 100 * Zpos m * 2 ^ e
  else (200 * Zpos m + 2 ^ (- e)) / (2 * 2 ^ (- e)).

(** [x.toFixed(2)] read as hundredths of the magnitude of [x]; [None] for
    NaN and the infinities. The sign is put back by [parse_fixed2]. *)
Definition toFixed2 (x : float) : option Z :=
  match Prim2SF x with
  | S754_zero _ => Some 0
  | S754_finite _ m e => Some (hundredths m e)
  | S754_infinity _ => None
  | S754_nan => None
  end.

(** [parseFloat(x.toFixed(2))]: the float nearest to the decimal printed. *)
Definition parse_fixed2 (x : float) : float :=
  match toFixed2 x with
  | Some n =>
      let q := PrimFloat.div (float_of_Z n) (float_of_Z 100) in
      if PrimFloat.ltb x PrimFloat.zero then PrimFloat.opp q else q
  | None => x
  end.

Record FunctionReport : Type :=
  mkFunctionReport {
      cyclomatic_complexity : Z;
      nloc : Z;
      token_count : Z;
      r_name : option string;        (* [name] *)
      long_name : option string;
      start_line : option Z;
      end_line : Z;
      max_nesting_depth : Z
    }.

Record Report : Type :=
  mkReport {
      filename : string;
      language : string;
      total_loc : Z;
      total_nloc : Z;
      function_count : Z;
      complexity_avg : float;
      complexity_max : Z;
      r_functions : list FunctionReport   (* [functions] *)
    }.

(** The message of the 400 answer. *)
Definition missing_fields : string :=
  let q := String "034" EmptyString in
  "Request must include " ++ q ++ "code" ++ q ++ " and " ++ q ++ "filename" ++ q.

(** The answer of the endpoint: a status and a body. *)
Inductive Response : Type :=
| Json (report : Report)                 (* 200 *)
| BadRequest (message : string)          (* 400 *)
| ServerError (message : string).        (* 500 *)

(** The callback of [babelMetrics.functions.map], with the two variables it
    updates, [complexity_sum] and [complexity_max]. *)
Definition flatten_function (st : Z * Z) (f : FunctionRecord)
  : (Z * Z) * FunctionReport :=
  let '(complexity_sum, complexity_max) := st in
  let cc := f_CC f in
  let complexity_sum := complexity_sum + cc in
  let complexity_max := if complexity_max <? cc then cc else complexity_max in
  ((complexity_sum, complexity_max),
   mkFunctionReport cc (f_NLOC f) 0 (f_name f) (f_name f) (f_lineStart f) 0 0).

(** [Array.prototype.map] with that callback, in order. *)
Fixpoint flatten_functions (st : Z * Z) (fs : list FunctionRecord)
  : (Z * Z) * list FunctionReport :=
  match fs with
  | [] => (st, [])
  | f :: fs' =>
      let '(st1, r) := flatten_function st f in
      let '(st2, rs) := flatten_functions st1 fs' in
      (st2, r :: rs)
  end.

(** The body of the [try] block once [calculateMetrics] has returned. *)
Definition responseMetrics (filename : string) (babelMetrics : Metrics)
  : Report :=
  let '((complexity_sum, complexity_max), functions) :=
    flatten_functions (0, 0) (functions babelMetrics) in
  let function_count := Z.of_nat (List.length functions) in
  let complexity_avg :=
    if 0 <? function_count
    then parse_fixed2
           (PrimFloat.div (float_of_Z complexity_sum) (float_of_Z function_count))
    else PrimFloat.zero in
  mkReport filename "javascript" (LOC babelMetrics) (NLOC babelMetrics)
    function_count complexity_avg complexity_max functions.

Section AnalyzeCode.

Variable parse : string -> result Node.
Variable crawl : Node -> result unit.

(** [app.post('/analyze-code', ...)] on the two fields of [req.body]. *)
Definition analyze_code (code filename : option string) : Response :=
  match code, filename with
  | Some c, Some f =>
      if negb (truthy code) || negb (truthy filename)
      then BadRequest missing_fields
      else
        match calculateMetrics parse crawl c with
        | Ok babelMetrics => Json (responseMetrics f babelMetrics)
        | Throw message => ServerError ("Failed to analyze code: " ++ message)
        end
  | _, _ => BadRequest missing_fields
  end.

End AnalyzeCode.

(** * Trees, examples and vocabulary *)

(** ** Building trees

    Constructors for the node shapes [@babel/parser] produces, with the
    children in [VISITOR_KEYS] order. Source positions are left out here;
    a parser result carries them. *)

Module Ast.

Definition node_of (ty : string) (kids : list (Key * Node)) : Node :=
  mkNode ty None None None None None kids.

(** The elements of a list-valued field, keyed by their index. *)
Fixpoint items_from (listKey : string) (i : nat) (ns : list Node)
  : list (Key * Node) :=
  match ns with
  | [] => []
  | n :: ns' => (Index listKey i, n) :: items_from listKey (S i) ns'
  end.

Definition items (listKey : string) (ns : list Node) : list (Key * Node) :=
  items_from listKey 0 ns.

(** An optional single-node field. *)
Definition field_opt (f : string) (o : option Node) : list (Key * Node) :=
  match o with
  | Some n => [(Field f, n)]
  | None => []
  end.

Definition Identifier (x : string) : Node :=
  mkNode "Identifier" (Some x) None None None None [].

Definition NumericLiteral : Node := node_of "NumericLiteral" [].

Definition BlockStatement (body : list Node) : Node :=
  node_of "BlockStatement" (items "body" body).

Definition ExpressionStatement (e : Node) : Node :=
  node_of "ExpressionStatement" [(Field "expression", e)].

Definition ReturnStatement (arg : option Node) : Node :=
  node_of "ReturnStatement" (field_opt "argument" arg).

Definition IfStatement (test consequent : Node) (alternate : option Node)
  : Node :=
  node_of "IfStatement"
    ((Field "test", test) :: (Field "consequent", consequent)
       :: field_opt "alternate" alternate).

Definition LogicalExpression (op : string) (l r : Node) : Node :=
  mkNode "LogicalExpression" None (Some op) None None None
    [(Field "left", l); (Field "right", r)].

Definition BreakStatement (label : option Node) : Node :=
  node_of "BreakStatement" (field_opt "label" label).

Definition SwitchCase (test : option Node) (consequent : list Node) : Node :=
  node_of "SwitchCase" (field_opt "test" test ++ items "consequent" consequent).

Definition SwitchStatement (discriminant : Node) (cases : list Node) : Node :=
  node_of "SwitchStatement"
    ((Field "discriminant", discriminant) :: items "cases" cases).

Definition CallExpression (callee : Node) (args : list Node) : Node :=
  node_of "CallExpression" ((Field "callee", callee) :: items "arguments" args).

Definition FunctionDeclaration (id : string) (params : list Node) (body : Node)
  : Node :=
  node_of "FunctionDeclaration"
    ((Field "id", Identifier id) :: items "params" params
       ++ [(Field "body", body)]).

Definition FunctionExpression (id : option string) (params : list Node)
  (body : Node) : Node :=
  node_of "FunctionExpression"
    (field_opt "id" (option_map Identifier id) ++ items "params" params
       ++ [(Field "body", body)]).

Definition ArrowFunctionExpression (params : list Node) (body : Node) : Node :=
  node_of "ArrowFunctionExpression"
    (items "params" params ++ [(Field "body", body)]).

Definition ObjectMethod (key : Node) (params : list Node) (body : Node)
  : Node :=
  node_of "ObjectMethod"
    ((Field "key", key) :: items "params" params ++ [(Field "body", body)]).

Definition ObjectProperty (key value : Node) : Node :=
  node_of "ObjectProperty" [(Field "key", key); (Field "value", value)].

Definition ObjectExpression (properties : list Node) : Node :=
  node_of "ObjectExpression" (items "properties" properties).

Definition VariableDeclarator (id : Node) (init : option Node) : Node :=
  node_of "VariableDeclarator" ((Field "id", id) :: field_opt "init" init).

Definition VariableDeclaration (declarations : list Node) : Node :=
  node_of "VariableDeclaration" (items "declarations" declarations).

Definition Program (body : list Node) : Node :=
  node_of "Program" (items "body" body).

Definition File (program : Node) : Node :=
  node_of "File" [(Field "program", program)].

End Ast.

(** The worked examples of the test file [verify_cc.js]. *)
Module Examples.
Import Ast.

(** [if (x) {} else if (y) {}] *)
Definition if_else_if (x y : string) : Node :=
  IfStatement (Identifier x) (BlockStatement [])
    (Some (IfStatement (Identifier y) (BlockStatement []) None)).

(** [if (x) {} else if (x) {} ... else if (x) {}] with [n] else-if links. *)
Fixpoint else_if_chain (x : string) (n : nat) : Node :=
  match n with
  | O => IfStatement (Identifier x) (BlockStatement []) None
  | S n' =>
      IfStatement (Identifier x) (BlockStatement [])
        (Some (else_if_chain x n'))
  end.

(** [if (x) { if (y) {} }] *)
Definition nested_if (x y : string) : Node :=
  IfStatement (Identifier x)
    (BlockStatement [IfStatement (Identifier y) (BlockStatement []) None])
    None.

(** [if (x) { if (y) {} } else { return; }] *)
Definition nested_if_else (x y : string) : Node :=
  IfStatement (Identifier x)
    (BlockStatement [IfStatement (Identifier y) (BlockStatement []) None])
    (Some (BlockStatement [ReturnStatement None])).

(** [if (a && b && c) {}]: [&&] associates to the left. *)
Definition if_and_run (a b c : string) : Node :=
  IfStatement
    (LogicalExpression "&&"
       (LogicalExpression "&&" (Identifier a) (Identifier b))
       (Identifier c))
    (BlockStatement []) None.

(** [switch (x) { case 1: break; default: break; }] *)
Definition switch_default (x : string) : Node :=
  SwitchStatement (Identifier x)
    [SwitchCase (Some NumericLiteral) [BreakStatement None];
     SwitchCase None [BreakStatement None]].

(** [function f() { stmt }] as a path: [f] sits anywhere. *)
Definition function_with (f : string) (stmt : Node) (k : Key)
  (parent : option NodePath) : NodePath :=
  mkPath (FunctionDeclaration f [] (BlockStatement [stmt])) k parent.

End Examples.

Import Ast Examples.

(** ** Induction over trees *)

Section NodeInduction.

Variable P : Node -> Prop.
Hypothesis step :
  forall n : Node, Forall (fun kc => P (snd kc)) (children n) -> P n.

Fixpoint Node_induction (n : Node) : P n :=
  match n with
  | mkNode ty nm op st en lc cs =>
      step (mkNode ty nm op st en lc cs)
        ((fix all (l : list (Key * Node)) : Forall (fun kc => P (snd kc)) l :=
            match l with
            | [] => Forall_nil _
            | kc :: l' =>
                Forall_cons kc
                  (match kc as x return P (snd x) with
                   | (_, c) => Node_induction c
                   end)
                  (all l')
            end) cs)
  end.

End NodeInduction.

(** ** The scoring traversal *)

Definition score_visit (fn : option string) :=
  visit (score_enter fn) score_exit.

Definition score_visit_all (fn : option string) :=
  visit_all (score_enter fn) score_exit.

(** [node.alternate && node.alternate.type !== 'IfStatement'] *)
Definition has_plain_else (n : Node) : bool :=
  match get n "alternate" with
  | Some alt => negb (String.eqb (type alt) "IfStatement")
  | None => false
  end.

(** ** Functions with no control flow *)

(** The node kinds that stand for control-flow constructs: the ones the
    cascades of the scorer test for. *)
Definition control_flow_types : list string :=
  ["IfStatement"; "ConditionalExpression"; "SwitchStatement"; "SwitchCase";
   "ForStatement"; "ForInStatement"; "ForOfStatement"; "WhileStatement";
   "DoWhileStatement"; "CatchClause"; "LogicalExpression";
   "BreakStatement"; "ContinueStatement"].

Definition is_control_flow (n : Node) : bool :=
  existsb (String.eqb (type n)) control_flow_types.

(** A call of the function's own name: what the recursion rule charges. *)
Definition is_self_call (fn : option string) (n : Node) : bool :=
  String.eqb (type n) "CallExpression" && truthy fn &&
  match get n "callee" with
  | Some callee =>
      String.eqb (type callee) "Identifier" && opt_eqb (name callee) fn
  | None => false
  end.

(** Babel gives every CallExpression a [callee]. *)
Definition call_has_callee (n : Node) : bool :=
  negb (String.eqb (type n) "CallExpression") || is_some (get n "callee").

Definition is_function_node (n : Node) : bool :=
  existsb (String.eqb (type n)) function_types.

(** [P] holds of every node a scoring traversal enters below and including
    [n]: nested functions are entered but not descended into, and charge
    nothing. *)
Fixpoint scored_nodes_all (P : Node -> bool) (n : Node) {struct n} : bool :=
  match n with
  | mkNode ty nm op st en lc cs =>
      if existsb (String.eqb ty) function_types then true
      else P n && forallb (fun kc => scored_nodes_all P (snd kc)) cs
  end.

(** The same over the subtree of a function: its children. *)
Definition body_nodes_all (P : Node -> bool) (funcPath : NodePath) : bool :=
  forallb (fun kc => scored_nodes_all P (snd kc)) (children (node funcPath)).

Definition no_control_flow (funcPath : NodePath) : bool :=
  body_nodes_all (fun n => negb (is_control_flow n)) funcPath.

Definition no_self_call (fn : option string) (funcPath : NodePath) : bool :=
  body_nodes_all (fun n => call_has_callee n && negb (is_self_call fn n))
    funcPath.

(** ** More trees *)

(** The three operators of a LogicalExpression. *)
Inductive logical_op : Type := And | Or | Nullish.

Definition op_string (o : logical_op) : string :=
  match o with
  | And => "&&"
  | Or => "||"
  | Nullish => "??"
  end.

(** [x op y1 op y2 ... op yn], which the parser nests to the left. *)
Definition operator_run (op : string) (x : string) (ys : list string) : Node :=
  fold_left (fun acc y => LogicalExpression op acc (Identifier y)) ys
    (Identifier x).

(** Whether the parent of [path] is a LogicalExpression with operator [op]. *)
Definition continues_run (op : string) (path : NodePath) : bool :=
  opt_is isLogicalExpression (parentPath path)
  && opt_eqb (parent_operator path) (Some op).

(** [switch (x) { case 1: if (y) {} }] *)
Definition switch_with_if (x y : string) : Node :=
  SwitchStatement (Identifier x)
    [SwitchCase (Some NumericLiteral)
       [IfStatement (Identifier y) (BlockStatement []) None]].

(** [function f() { callee(); }] *)
Definition calling (f callee : string) : NodePath :=
  function_with f (ExpressionStatement (CallExpression (Identifier callee) []))
    (Index "body" 0) None.

(** The path of the single statement [stmt] of a program. *)
Definition statement_path (stmt : Node) : NodePath :=
  mkPath stmt (Index "body" 0)
    (Some (mkPath (Program [stmt]) (Field "program") None)).

(** [const x = init;] and the path of [init] in it. *)
Definition const_decl (x : string) (init : Node) : Node :=
  VariableDeclaration [VariableDeclarator (Identifier x) (Some init)].

Definition initializer_path (x : string) (init : Node) : NodePath :=
  mkPath init (Field "init")
    (Some (mkPath (VariableDeclarator (Identifier x) (Some init))
             (Index "declarations" 0)
             (Some (statement_path (const_decl x init))))).

(** [const foo = () => {}] *)
Definition arrow : Node := ArrowFunctionExpression [] (BlockStatement []).

(** [({ foo() {} })] and the path of its method. *)
Definition method (m : string) : Node :=
  ObjectMethod (Identifier m) [] (BlockStatement []).

Definition method_path (m : string) : NodePath :=
  mkPath (method m) (Index "properties" 0)
    (Some (mkPath (ObjectExpression [method m]) (Field "expression")
             (Some (statement_path
                      (ExpressionStatement (ObjectExpression [method m])))))).

(** [(function () {})]: a function expression nobody names. *)
Definition unnamed : Node := FunctionExpression None [] (BlockStatement []).

Definition unnamed_path : NodePath :=
  mkPath unnamed (Field "expression")
    (Some (statement_path (ExpressionStatement unnamed))).

(** [const foo = function anonymous() {}] *)
Definition named_anonymous : Node :=
  FunctionExpression (Some "anonymous") [] (BlockStatement []).

(** A scope builder that accepts every tree. *)
Definition accepts : Node -> result unit := fun _ => Ok tt.

(** The names [calculateMetrics] reports for a parsed file whose scopes
    build. *)
Definition reported_names (ast : Node) : result (list (option string)) :=
  m <- calculateMetrics (fun _ => Ok ast) accepts "" ;;
  Ok (map f_name (functions m)).

(** ** Archives *)

(** File entries with the given names. *)
Definition files (names : list string) : list ZipEntry :=
  map (fun n => mkEntry n false) names.

(** The entries the loop counts, and their first segments. *)
Definition considered (entries : list ZipEntry) : list ZipEntry :=
  filter counted entries.

Definition top_levels (entries : list ZipEntry) : list string :=
  map (fun e => topLevelName (entryName e)) (considered entries).

(** [!e.entryName.includes('/')] for some counted entry. *)
Definition some_top_level_file (entries : list ZipEntry) : bool :=
  existsb (fun e => negb (includes_slash (entryName e))) (considered entries).

(** ** The batch *)

(** The code files the walk reaches, with their paths, in walk order. *)
Fixpoint code_files (directory : Path) (e : FsNode) {struct e}
  : list (Path * result string) :=
  match e with
  | FsDir file entries =>
      if ignored_folder file then []
      else flat_map (code_files (directory ++ [file])%list) entries
  | FsFile file content =>
      if isCodeFile file then [((directory ++ [file])%list, content)] else []
  end.

Section FsInduction.

Variable P : FsNode -> Prop.
Hypothesis on_file : forall file content, P (FsFile file content).
Hypothesis on_dir :
  forall file entries, Forall P entries -> P (FsDir file entries).

Fixpoint FsNode_induction (e : FsNode) : P e :=
  match e with
  | FsFile file content => on_file file content
  | FsDir file entries =>
      on_dir file entries
        ((fix all (es : list FsNode) : Forall P es :=
            match es with
            | [] => Forall_nil _
            | e' :: es' => Forall_cons e' (FsNode_induction e') (all es')
            end) entries)
  end.

End FsInduction.

(** The result of one file of the batch. *)
Definition analyzed (parse : string -> result Node) (crawl : Node -> result unit)
  (rootPath : Path) (pc : Path * result string) : FileResult :=
  analyzeFileAt parse crawl (snd pc) (fst pc) (Some rootPath).

(** ** The report *)

(** The sum of the scores, and the running maximum from a start value, as
    the [map] callback accumulates them. *)
Definition total_CC (fs : list FunctionRecord) : Z :=
  fold_right (fun f acc => f_CC f + acc) 0 fs.

Definition max_CC (start : Z) (fs : list FunctionRecord) : Z :=
  fold_left (fun mx f => Z.max mx (f_CC f)) fs start.

(** How an entry of the report relates to the record it comes from. *)
Definition flattens (f : FunctionRecord) (r : FunctionReport) : Prop :=
  cyclomatic_complexity r = f_CC f
  /\ nloc r = f_NLOC f
  /\ r_name r = f_name f
  /\ long_name r = r_name r
  /\ start_line r = f_lineStart f
  /\ end_line r = 0
  /\ token_count r = 0
  /\ max_nesting_depth r = 0.

(** [m] is the largest element of [xs]. *)
Definition is_maximum (xs : list Z) (m : Z) : Prop :=
  In m xs /\ forall x, In x xs -> x <= m.

(** The JavaScript number of an integer: the binary64 float nearest to
    it. *)
Definition binary64 (z : Z) : float :=
  SF2Prim (binary_normalize prec emax z 0 false).

(** The mean of the scores, as a number. *)
Definition mean (fs : list FunctionRecord) : float :=
  PrimFloat.div (binary64 (total_CC fs))
    (binary64 (Z.of_nat (List.length fs))).

(** [n] hundredths are nearest to the magnitude [m * 2^e], the larger [n]
    on a tie: [n - 1/2 <= 100 * m * 2^e < n + 1/2], written over the
    integers with [v / d] for [m * 2^e]. *)
Definition nearest_hundredths (m : positive) (e : Z) (n : Z) : Prop :=
  let d := 2 ^ Z.max 0 (- e) in
  let v := Zpos m * 2 ^ Z.max 0 e in
  - d < 2 * (n * d - 100 * v) <= d.

(** [y] is [x] rounded to two decimals: the number of the nearest
    hundredths, with the sign of [x]; what is not finite stays. *)
Definition two_decimals (x y : float) : Prop :=
  match Prim2SF x with
  | S754_zero _ => y = PrimFloat.zero
  | S754_finite s m e =>
      exists n,
        nearest_hundredths m e n
        /\ y = (if s then PrimFloat.opp else fun q => q)
                 (PrimFloat.div (binary64 n) (binary64 100))
  | S754_infinity _ => y = x
  | S754_nan => y = x
  end.

(** ** Files without functions *)

Fixpoint has_no_function (n : Node) {struct n} : bool :=
  match n with
  | mkNode ty nm op st en lc cs =>
      negb (existsb (String.eqb ty) function_types)
      && forallb (fun kc => has_no_function (snd kc)) cs
  end.

(** No node the collector visits is a function: the File node itself is
    not visited. *)
Definition function_free (ast : Node) : bool :=
  forallb (fun kc => has_no_function (snd kc)) (children ast).

(** ** Reports *)

(** What a flattened report of the collected [babelMetrics] holds. *)
Definition report_flattens (babelMetrics : Metrics) (report : Report) : Prop :=
  let fs := functions babelMetrics in
  Forall2 flattens fs (r_functions report)
  /\ function_count report = Z.of_nat (List.length fs)
  /\ language report = "javascript"
  /\ total_loc report = LOC babelMetrics
  /\ total_nloc report = NLOC babelMetrics
  /\ match fs with
     | [] => complexity_avg report = PrimFloat.zero
             /\ complexity_max report = 0
     | _ :: _ => two_decimals (mean fs) (complexity_avg report)
                 /\ is_maximum (map f_CC fs) (complexity_max report)
     end.

(** A parser given by a table of sources and their trees. *)
Fixpoint table_parse (table : list (string * Node)) (code : string)
  : result Node :=
  match table with
  | [] => Throw "Unexpected token"
  | (src, ast) :: table' =>
      if String.eqb src code then Ok ast else table_parse table' code
  end.

(** [function f() { if (x) {} }  function g() {}] *)
Definition two_functions : Node :=
  File (Program
          [FunctionDeclaration "f" []
             (BlockStatement
                [IfStatement (Identifier "x") (BlockStatement []) None]);
           FunctionDeclaration "g" [] (BlockStatement [])]).

Definition two_functions_source : string :=
  "function f() { if (x) {} }  function g() {}".

(** [const x = 1;] *)
Definition no_functions : Node :=
  File (Program [const_decl "x" NumericLiteral]).

(** A batch with a file that does not parse next to one that does, and a
    dependency folder the walk passes by. *)
Definition sample_parse : string -> result Node :=
  table_parse [("const x = 1;", no_functions)].

Definition sample_root : Path := ["tmp"; "extracted_1"; "proj"].

Definition sample_tree : list FsNode :=
  [FsFile "bad.js" (Ok "const = ;");
   FsDir "src" [FsFile "good.js" (Ok "const x = 1;")];
   FsDir "node_modules" [FsFile "dep.js" (Ok "const x = 1;")]].

(** * Further vocabulary *)

(** ** Counters moved by a constant *)

(** [c] with [a] more complexity and [d] more nesting. *)
Definition shift (a d : Z) (c : Counters) : Counters :=
  mkCounters (complexity c + a) (nesting c + d).

(** The kinds whose charge on enter grows with [nesting]: the structural
    ones, an else-if included. *)
Definition nesting_weighted_types : list string :=
  ["IfStatement"; "ForStatement"; "ForInStatement"; "ForOfStatement";
   "WhileStatement"; "DoWhileStatement"; "CatchClause";
   "ConditionalExpression"].

Definition weighs_nesting (n : Node) : Z :=
  if existsb (String.eqb (type n)) nesting_weighted_types then 1 else 0.

(** How many nodes a scoring traversal enters, below and including [n],
    whose charge grows with [nesting]. *)
Fixpoint nesting_weight (n : Node) {struct n} : Z :=
  match n with
  | mkNode ty nm op st en lc cs =>
      if existsb (String.eqb ty) function_types then 0
      else
        weighs_nesting n
        + fold_right (fun kc acc => nesting_weight (snd kc) + acc) 0 cs
  end.

Definition nesting_weight_all (cs : list (Key * Node)) : Z :=
  fold_right (fun kc acc => nesting_weight (snd kc) + acc) 0 cs.

(** ** Loop nests *)

(** [while (x) body] *)
Definition WhileStatement (test body : Node) : Node :=
  Ast.node_of "WhileStatement" [(Field "test", test); (Field "body", body)].

(** [n] loops [while (x) { ... }], one inside the other, the innermost
    with an empty block. *)
Fixpoint loop_nest (x : string) (n : nat) : Node :=
  match n with
  | O => BlockStatement []
  | S n' => BlockStatement [WhileStatement (Identifier x) (loop_nest x n')]
  end.

(** [0 + 1 + ... + (n - 1)] *)
Fixpoint triangular (n : nat) : Z :=
  match n with
  | O => 0
  | S m => Z.of_nat m + triangular m
  end.

(** [function f() { <loop nest> }] *)
Definition function_of_block (f : string) (body : Node) (k : Key)
  (parent : option NodePath) : NodePath :=
  mkPath (FunctionDeclaration f [] body) k parent.

(** ** Emptying nested functions *)

(** [n] with every function node in it emptied of its children. *)
Fixpoint strip_nested (n : Node) {struct n} : Node :=
  match n with
  | mkNode ty nm op st en lc cs =>
      if existsb (String.eqb ty) function_types
      then mkNode ty nm op st en lc []
      else mkNode ty nm op st en lc
             (map (fun kc => (fst kc, strip_nested (snd kc))) cs)
  end.

Definition strip_children (cs : list (Key * Node)) : list (Key * Node) :=
  map (fun kc => (fst kc, strip_nested (snd kc))) cs.

(** The function at [funcPath] with every function nested in it emptied. *)
Definition strip_nested_functions (funcPath : NodePath) : NodePath :=
  let n := node funcPath in
  mkPath (mkNode (type n) (name n) (operator n) (start n) (end_ n) (loc n)
            (strip_children (children n)))
    (key funcPath) (parentPath funcPath).

(** Two parent paths the visitor cannot tell apart: it reads the type and
    the operator of the parent node. *)
Definition alike (p q : option NodePath) : Prop :=
  option_map (fun x => (type (node x), operator (node x))) p
  = option_map (fun x => (type (node x), operator (node x))) q.

(** ** The functions of a file *)

(** The paths of the function nodes below and including [n], in pre-order,
    nested functions included. *)
Fixpoint function_paths_from (parent : option NodePath) (k : Key) (n : Node)
  {struct n} : list NodePath :=
  match n with
  | mkNode ty nm op st en lc cs =>
      let p := mkPath n k parent in
      ((if existsb (String.eqb ty) function_types then [p] else [])
         ++ flat_map
              (fun kc => function_paths_from (Some p) (fst kc) (snd kc)) cs)%list
  end.

Definition function_paths_all (parent : option NodePath)
  (cs : list (Key * Node)) : list NodePath :=
  flat_map (fun kc => function_paths_from parent (fst kc) (snd kc)) cs.

(** The function paths of a parsed file. *)
Definition function_paths (ast : Node) : list NodePath :=
  function_paths_all None (children ast).

(** [r] is the record of the function at [p] in the source [code]. *)
Definition records (code : string) (p : NodePath) (r : FunctionRecord) : Prop :=
  resolveName p = Ok (f_name r)
  /\ calculateCognitiveComplexity p (baseNestingOf p) (f_name r) = Ok (f_CC r)
  /\ f_NLOC r
     = count_nonblank_lines
         (slice code
            (match start (node p) with Some i => i | None => O end)
            (match end_ (node p) with
             | Some i => i
             | None => String.length code
             end))
  /\ f_lineStart r = option_map loc_start (loc (node p))
  /\ f_lineEnd r = option_map loc_end (loc (node p)).

(** A path and its ancestors, nearest first. *)
Fixpoint path_and_ancestors (p : NodePath) : list NodePath :=
  match p with
  | mkPath _ _ up =>
      p :: match up with
           | Some q => path_and_ancestors q
           | None => []
           end
  end.

Definition ancestors (p : NodePath) : list NodePath :=
  match parentPath p with
  | Some q => path_and_ancestors q
  | None => []
  end.

(** ** Lines *)

(** The line feed, and [lines.join('\n')]. *)
Definition LF : string := String "010" EmptyString.

Definition join_lines (lines : list string) : string := String.concat LF lines.

(** How many line feeds a text holds. *)
Fixpoint count_LF (s : string) : nat :=
  match s with
  | EmptyString => O
  | String c s' => (if Ascii.eqb c "010" then 1 else 0) + count_LF s'
  end.

(** ** Reported files *)

(** A name with one of the four code extensions. *)
Definition code_extension (file : string) : Prop :=
  exists stem,
    file = stem ++ ".js" \/ file = stem ++ ".jsx"
    \/ file = stem ++ ".ts" \/ file = stem ++ ".tsx".

(** The name of a folder the walk is to pass by. *)
Definition ignored_name (folder : string) : Prop :=
  folder = "node_modules" \/ folder = "dist" \/ folder = "build"
  \/ exists rest, folder = ".git" ++ rest.

(** The path below the root of a file the walk is to report: a code file
    none of whose folders is to be passed by. *)
Definition reportable (rel : Path) : Prop :=
  rel <> []
  /\ code_extension (last rel "")
  /\ Forall (fun folder => ~ ignored_name folder) (removelast rel).

(** ** [analyze_target.js]: the functions by falling score *)

(** Where [f] goes in a list already in falling order of score: before
    the first record whose score is not above its own. *)
Fixpoint insert_by_CC (f : FunctionRecord) (sorted : list FunctionRecord)
  : list FunctionRecord :=
  match sorted with
  | [] => [f]
  | g :: rest =>
      if f_CC g <=? f_CC f then f :: g :: rest
      else g :: insert_by_CC f rest
  end.

(** [functions.sort((a, b) => b.CC - a.CC)]: [Array.prototype.sort] is a
    stable sort, and the stable sorted rearrangement of a list is unique;
    it is written here as an insertion sort from the right. *)
Definition sort_by_CC (fs : list FunctionRecord) : list FunctionRecord :=
  fold_right insert_by_CC [] fs.

(** [let totalCC = 0; functions.forEach(f => totalCC += f.CC)] *)
Definition totalCC (fs : list FunctionRecord) : Z :=
  fold_left (fun total f => total + f_CC f) fs 0.

(** The records with score [cc], in the order they stand in. *)
Definition with_CC (cc : Z) (fs : list FunctionRecord) : list FunctionRecord :=
  filter (fun f => f_CC f =? cc) fs.

(** A list in falling order of score. *)
Definition falling (fs : list FunctionRecord) : Prop :=
  Sorted.StronglySorted (fun a b => f_CC b <= f_CC a) fs.

(** ** Else-if chains closed by an else *)

(** [if (x) {} else if (x) {} ... else {}] with [n] else-if links. *)
Fixpoint else_if_chain_else (x : string) (n : nat) : Node :=
  match n with
  | O => IfStatement (Identifier x) (BlockStatement [])
           (Some (BlockStatement []))
  | S n' =>
      IfStatement (Identifier x) (BlockStatement [])
        (Some (else_if_chain_else x n'))
  end.

(** ** An assigned function *)

(** [foo = function () {}]: an assignment, not a declaration. *)
Definition assigned_function_path : NodePath :=
  mkPath unnamed (Field "right")
    (Some (mkPath
             (node_of "AssignmentExpression"
                [(Field "left", Identifier "foo"); (Field "right", unnamed)])
             (Field "expression") None)).

(** ** A declaration two levels deep *)

(** [function g() { if (y) {} }] as it stands in
    [function f() { if (x) { function g() { if (y) {} } } }]. *)
Definition nested_declaration_path : NodePath :=
  let inner :=
    FunctionDeclaration "g" []
      (BlockStatement [IfStatement (Identifier "y") (BlockStatement []) None]) in
  let branch := BlockStatement [inner] in
  let test := IfStatement (Identifier "x") branch None in
  let body := BlockStatement [test] in
  let outer := FunctionDeclaration "f" [] body in
  mkPath inner (Index "body" 0)
    (Some (mkPath branch (Field "consequent")
             (Some (mkPath test (Index "body" 0)
                      (Some (mkPath body (Field "body")
                               (Some (statement_path outer)))))))).

(** ** Levels above a function *)

(** The kinds of ancestor that put a function one level deeper: the
    function kinds, If, the five loops, Switch and Catch. A block, a Try,
    a ternary, a label or a class is none. *)
Definition level_types : list string :=
  ["FunctionDeclaration"; "FunctionExpression"; "ObjectMethod";
   "ArrowFunctionExpression"; "ClassMethod"; "ClassPrivateMethod";
   "IfStatement"; "ForStatement"; "ForInStatement"; "ForOfStatement";
   "WhileStatement"; "DoWhileStatement"; "SwitchStatement"; "CatchClause"].

Definition is_level (q : NodePath) : bool :=
  existsb (String.eqb (type (node q))) level_types.

(** ** Files of a tree *)

(** The listing [entries] holds, at the path [rel] below it, a file with
    the given content. *)
Inductive file_at : list FsNode -> Path -> result string -> Prop :=
| file_here entries file content :
    In (FsFile file content) entries ->
    file_at entries [file] content
| file_below entries folder inner rel content :
    In (FsDir folder inner) entries ->
    file_at inner rel content ->
    file_at entries (folder :: rel) content.

(** No name of the tree holds a ['/'], as in every listing of a file
    system. *)
Fixpoint names_slash_free (e : FsNode) {struct e} : bool :=
  match e with
  | FsFile file _ => negb (includes_slash file)
  | FsDir file entries =>
      negb (includes_slash file) && forallb names_slash_free entries
  end.

(** * Lemmas *)

(** ** Unfolding [visit] *)

Section TraverseLemmas.

Context {S : Type}.
Variable enter : NodePath -> S -> result (S * bool).
Variable exit : NodePath -> S -> S.

Lemma visit_eq (parent : option NodePath) (k : Key) (n : Node) (s : S) :
  visit enter exit parent k n s =
    let p := mkPath n k parent in
    '(s1, skipped) <- enter p s ;;
    if skipped : bool then Ok s1
    else s2 <- visit_all enter exit (Some p) (children n) s1 ;; Ok (exit p s2).
Proof.
  destruct n as [ty nm op st en lc cs]; cbn [visit children].
  set (p := mkPath _ k parent).
  destruct (enter p s) as [[s1 [|]]|m]; cbn [bind]; try reflexivity.
  f_equal.
  generalize (Some p) as pp, s1.
  induction cs as [|[k' c] cs IH]; intros pp s0; cbn [visit_all]; [reflexivity|].
  destruct (visit enter exit pp k' c s0); cbn [bind]; [apply IH | reflexivity].
Qed.

End TraverseLemmas.

(** ** Invariants of a traversal *)

Section TraverseInvariant.

Context {S : Type}.
Variable enter : NodePath -> S -> result (S * bool).
Variable exit : NodePath -> S -> S.
Variable Inv : S -> Prop.

Hypothesis enter_keeps :
  forall p s s' skipped, enter p s = Ok (s', skipped) -> Inv s -> Inv s'.
Hypothesis exit_keeps : forall p s, Inv s -> Inv (exit p s).

Lemma visit_keeps n :
  forall parent k s s',
    visit enter exit parent k n s = Ok s' -> Inv s -> Inv s'.
Proof.
  induction n as [n IH] using Node_induction.
  intros parent k s s'. rewrite visit_eq. cbv zeta.
  destruct (enter _ s) as [[s1 skipped]|m] eqn:He; cbn [bind]; [|discriminate].
  intros H Hs. apply enter_keeps in He; [|exact Hs].
  destruct skipped; [injection H as <-; exact He|].
  destruct (visit_all _ _ _ (children n) s1) as [s2|m] eqn:Hkids;
    cbn [bind] in H; [|discriminate].
  injection H as <-. apply exit_keeps.
  revert Hkids He. generalize (Some (mkPath n k parent)) as pp, s1.
  induction IH as [|[k' ch] cs IHch _ IHcs]; intros pp s0; cbn [visit_all].
  - intros [= <-]. auto.
  - destruct (visit _ _ pp k' ch s0) as [s3|m] eqn:Hch; cbn [bind];
      [|discriminate].
    intros Hrest Hs0. apply (IHcs pp s3 Hrest).
    apply (IHch pp k' s0 s3 Hch Hs0).
Qed.

Lemma traverse_keeps crawl ast s s' :
  traverse crawl enter exit ast s = Ok s' -> Inv s -> Inv s'.
Proof.
  unfold traverse. destruct (crawl ast) as [_|m]; [|discriminate].
  generalize (@None NodePath) as pp.
  revert s. induction (children ast) as [|[k ch] cs IH]; intros s pp;
    cbn [visit_all].
  - intros [= <-]. auto.
  - destruct (visit _ _ pp k ch s) as [s1|m] eqn:Hch; cbn [bind];
      [|discriminate].
    intros Hrest Hs. apply (IH s1 pp Hrest).
    apply (visit_keeps ch pp k s s1 Hch Hs).
Qed.

End TraverseInvariant.

(** ** What one visitor call does to the counters *)

Ltac counters :=
  cbn [complexity nesting addStructural addFundamental addElseIf
         incNesting decNesting] in *.

Ltac unfold_tests :=
  unfold isLoop, isIfStatement, isSwitchStatement, isSwitchCase,
    isForStatement, isForInStatement, isForOfStatement, isWhileStatement,
    isDoWhileStatement, isCatchClause, isLogicalExpression,
    isConditionalExpression, isCallExpression, isBreakStatement,
    isContinueStatement, has_type in *.

(** Case split on whether the node of [p] has type [t]; in the positive
    case every other type test computes. *)
Ltac by_type p t :=
  let E := fresh "E" in
  destruct (String.eqb_spec (type (node p)) t) as [E|E];
  [ rewrite ?E; cbn [String.eqb Ascii.eqb Bool.eqb orb andb negb] | ].

Ltac split_on_type p :=
  unfold_tests;
  by_type p "IfStatement"; [|
  by_type p "SwitchStatement"; [|
  by_type p "SwitchCase"; [|
  by_type p "ForStatement"; [|
  by_type p "ForInStatement"; [|
  by_type p "ForOfStatement"; [|
  by_type p "WhileStatement"; [|
  by_type p "DoWhileStatement"; [|
  by_type p "CatchClause"; [|
  by_type p "LogicalExpression"; [|
  by_type p "ConditionalExpression" ]]]]]]]]]];
  cbn [orb andb negb].

Lemma enter_call_nesting fn p c c1 :
  enter_call fn p c = Ok c1 ->
  nesting c1 = nesting c /\ complexity c <= complexity c1 <= complexity c + 1.
Proof.
  unfold enter_call.
  destruct (isCallExpression p && truthy fn).
  - destruct (get_required (node p) "callee") as [callee|m]; cbn [bind]; [|discriminate].
    destruct (_ && _); intros [= <-]; counters; lia.
  - intros [= <-]; lia.
Qed.

Lemma enter_jump_nesting p c :
  nesting (enter_jump p c) = nesting c
  /\ complexity c <= complexity (enter_jump p c) <= complexity c + 1.
Proof.
  unfold enter_jump. destruct (_ && _); counters; lia.
Qed.

Ltac split_control p :=
  unfold enter_control, score_exit;
  split_on_type p;
  try destruct (isElseIf p);
  try destruct (get (node p) "alternate") as [?alt|];
  try destruct (negb (String.eqb (type _) "IfStatement"));
  try (destruct (counted_operator _); [destruct (_ || _)|]);
  cbn [negb]; counters.

(** Entering never lowers [nesting]. *)
Lemma enter_control_nesting p c :
  nesting c <= nesting (enter_control p c).
Proof.
  split_control p; lia.
Qed.

(** Entering never lowers [complexity] while [nesting] is not negative:
    an else-if is charged [1 + (nesting - 1)], that is [nesting]. *)
Lemma enter_control_complexity p c :
  0 <= nesting c ->
  complexity c <= complexity (enter_control p c).
Proof.
  intros H0.
  split_control p; lia.
Qed.

(** [exit] undoes exactly the nesting change of [enter] and leaves
    [complexity] alone. *)
Lemma exit_undoes_enter p c c2 :
  nesting c2 = nesting (enter_control p c) ->
  nesting (score_exit p c2) = nesting c
  /\ complexity (score_exit p c2) = complexity c2.
Proof.
  split_control p; intros H; split; lia.
Qed.

(** Visiting a subtree restores [nesting] and never lowers [complexity]:
    every increment of [enter] is undone by the matching [exit], and a
    skipped nested function changes nothing. *)
Lemma score_visit_invariant fn n :
  forall parent k c c',
    score_visit fn parent k n c = Ok c' ->
    0 <= nesting c ->
    nesting c' = nesting c /\ complexity c <= complexity c'.
Proof.
  induction n as [n IH] using Node_induction.
  intros parent k c c'. unfold score_visit. rewrite visit_eq. cbv zeta.
  set (p := mkPath n k parent). unfold score_enter.
  destruct (isFunction p); cbn [bind].
  { intros [= <-] _. lia. }
  destruct (enter_call fn p c) as [c1|m] eqn:Hcall; cbn [bind]; [|discriminate].
  apply enter_call_nesting in Hcall as [Hn1 Hc1].
  pose proof (enter_jump_nesting p c1) as [Hn2 Hc2].
  set (c2 := enter_jump p c1) in *.
  destruct (visit_all _ _ (Some p) (children n) (enter_control p c2))
    as [c3|m] eqn:Hkids; cbn [bind]; [|discriminate].
  intros [= <-] Hnest.
  assert (Hnest2 : 0 <= nesting c2) by lia.
  pose proof (enter_control_nesting p c2) as Hup.
  pose proof (enter_control_complexity p c2 Hnest2) as Hcx.
  assert (Hkid : nesting c3 = nesting (enter_control p c2)
                 /\ complexity (enter_control p c2) <= complexity c3).
  { assert (H0 : 0 <= nesting (enter_control p c2)) by lia.
    revert Hkids H0. generalize (enter_control p c2) as s.
    induction IH as [|[k' ch] cs IHch _ IHcs]; intros s; cbn [visit_all].
    - intros [= <-] _. lia.
    - destruct (visit _ _ (Some p) k' ch s) as [s1|m] eqn:Hch; cbn [bind];
        [|discriminate].
      intros Hrest H0.
      cbn [snd] in IHch.
      apply IHch in Hch as [Hn Hc]; [| lia].
      apply IHcs in Hrest as [Hn' Hc']; lia. }
  destruct Hkid as [Hn3 Hc3].
  destruct (exit_undoes_enter p c2 c3 Hn3) as [Hn4 Hc4].
  lia.
Qed.

Lemma score_visit_all_invariant fn parent cs :
  forall c c',
    score_visit_all fn parent cs c = Ok c' ->
    0 <= nesting c ->
    nesting c' = nesting c /\ complexity c <= complexity c'.
Proof.
  unfold score_visit_all.
  induction cs as [|[k' ch] cs IHcs]; intros c c'; cbn [visit_all].
  - intros [= <-] _. lia.
  - destruct (visit _ _ parent k' ch c) as [s1|m] eqn:Hch; cbn [bind];
      [|discriminate].
    intros Hrest H0.
    apply (score_visit_invariant fn) in Hch as [Hn Hc]; [| lia].
    apply IHcs in Hrest as [Hn' Hc']; lia.
Qed.

(** The score of a function is never negative when the seed is not. *)
Lemma score_nonneg funcPath baseNesting fn cc :
  0 <= baseNesting ->
  calculateCognitiveComplexity funcPath baseNesting fn = Ok cc ->
  0 <= cc.
Proof.
  unfold calculateCognitiveComplexity, traverseNode. intros Hb.
  destruct (visit_all _ _ _ _ _) as [c|m] eqn:H; cbn [bind]; [|discriminate].
  intros [= <-].
  apply (score_visit_all_invariant fn) in H as [_ H]; cbn in *; lia.
Qed.

(** ** Unfolding a scoring traversal *)

Lemma score_visit_eq fn parent k n c :
  score_visit fn parent k n c =
    '(c1, skipped) <- score_enter fn (mkPath n k parent) c ;;
    if skipped : bool then Ok c1
    else
      c2 <- score_visit_all fn (Some (mkPath n k parent)) (children n) c1 ;;
      Ok (score_exit (mkPath n k parent) c2).
Proof. apply visit_eq. Qed.

Lemma score_visit_all_nil fn parent c :
  score_visit_all fn parent [] c = Ok c.
Proof. reflexivity. Qed.

Lemma score_visit_all_cons fn parent k ch cs c :
  score_visit_all fn parent ((k, ch) :: cs) c =
    c' <- score_visit fn parent k ch c ;; score_visit_all fn parent cs c'.
Proof. reflexivity. Qed.

Lemma has_type_true t p : has_type t p = true -> type (node p) = t.
Proof. apply String.eqb_eq. Qed.

(** On an If only the control-flow cascade acts. *)
Lemma score_enter_if fn p c :
  isIfStatement p = true ->
  score_enter fn p c = Ok (enter_control p c, false).
Proof.
  intros H%has_type_true.
  unfold score_enter, enter_call, enter_jump, isFunction, isCallExpression,
    isBreakStatement, isContinueStatement, has_type.
  rewrite H. reflexivity.
Qed.

Lemma enter_control_if p c :
  isIfStatement p = true ->
  enter_control p c =
    let c1 := if isElseIf p then addElseIf c else incNesting (addStructural c) in
    if has_plain_else (node p) then addFundamental c1 else c1.
Proof.
  intros H. unfold enter_control, has_plain_else. rewrite H.
  destruct (get (node p) "alternate") as [alt|]; reflexivity.
Qed.

Lemma score_exit_if p c :
  isIfStatement p = true ->
  score_exit p c = if isElseIf p then c else decNesting c.
Proof.
  intros H. unfold score_exit. rewrite H. destruct (isElseIf p); reflexivity.
Qed.

(** ** Else-if chains *)

Section ElseIfChain.

Variable fn : option string.
Variable x : string.

(** An identifier or an empty block leaves the counters alone. *)
Lemma visit_identifier parent k y c :
  score_visit fn parent k (Identifier y) c = Ok c.
Proof. destruct c; reflexivity. Qed.

Lemma visit_empty_block parent k c :
  score_visit fn parent k (BlockStatement []) c = Ok c.
Proof. destruct c; reflexivity. Qed.

Lemma else_if_chain_type n : type (else_if_chain x n) = "IfStatement".
Proof. destruct n; reflexivity. Qed.

Lemma else_if_chain_plain_else n :
  has_plain_else (else_if_chain x n) = false.
Proof.
  destruct n as [|n]; [reflexivity|].
  unfold has_plain_else; cbn [else_if_chain IfStatement node_of get children
    lookup_field key_is field_opt String.eqb Ascii.eqb Bool.eqb].
  rewrite else_if_chain_type. reflexivity.
Qed.

Ltac walk :=
  repeat (progress
            (rewrite ?score_visit_all_cons, ?score_visit_all_nil,
               ?visit_identifier, ?visit_empty_block; cbn [bind])).

(** A chain hanging off an If as its [alternate]: every link is charged
    [1 + (nesting - 1)] and [nesting] never moves. *)
Lemma visit_else_if_links (n : nat) :
  forall p c,
    isIfStatement p = true ->
    score_visit fn (Some p) (Field "alternate") (else_if_chain x n) c
    = Ok (mkCounters
            (complexity c + (Z.of_nat n + 1) * (1 + (nesting c - 1)))
            (nesting c)).
Proof.
  induction n as [|n IH]; intros p c Hp;
    rewrite score_visit_eq;
    set (q := mkPath _ (Field "alternate") (Some p));
    assert (Hq : isIfStatement q = true)
      by apply String.eqb_eq, else_if_chain_type;
    assert (He : isElseIf q = true)
      by (unfold isElseIf; cbn [q key parentPath opt_is key_is];
          rewrite Hp; reflexivity);
    rewrite (score_enter_if fn q c Hq); cbn [bind];
    rewrite (enter_control_if q c Hq), He; cbv zeta;
    cbn [q node]; rewrite else_if_chain_plain_else; fold q;
    cbn [else_if_chain IfStatement node_of field_opt children app];
    walk.
  - rewrite (score_exit_if q _ Hq), He. unfold addElseIf.
    f_equal. f_equal. cbn [Z.of_nat]. lia.
  - rewrite (IH q _ Hq); walk.
    rewrite (score_exit_if q _ Hq), He. counters.
    f_equal. f_equal. lia.
Qed.

(** A function whose body is an If followed by [n] else-if links. *)
Lemma score_else_if_chain (n : nat) f k parent (baseNesting : Z) :
  calculateCognitiveComplexity
    (function_with f (else_if_chain x n) k parent) baseNesting fn
  = Ok ((Z.of_nat n + 1) * (1 + baseNesting)).
Proof.
  unfold calculateCognitiveComplexity, traverseNode, function_with.
  fold (score_visit_all fn).
  cbn [node FunctionDeclaration node_of children items items_from app].
  walk.
  rewrite score_visit_eq.
  set (fp := mkPath _ k parent).
  set (bp := mkPath _ (Field "body") (Some fp)).
  change (score_enter fn bp _) with (Ok (mkCounters 0 baseNesting, false)).
  cbn [bind BlockStatement node_of children items items_from].
  walk.
  rewrite score_visit_eq.
  set (q := mkPath _ (Index "body" 0) (Some bp)).
  assert (Hq : isIfStatement q = true)
    by apply String.eqb_eq, else_if_chain_type.
  assert (He : isElseIf q = false) by reflexivity.
  rewrite (score_enter_if fn q _ Hq); cbn [bind].
  rewrite (enter_control_if q _ Hq), He; cbv zeta.
  cbn [q node]; rewrite else_if_chain_plain_else; fold q.
  destruct n as [|n];
    cbn [else_if_chain IfStatement node_of field_opt children app]; walk.
  - rewrite (score_exit_if q _ Hq), He.
    change (score_exit bp ?c) with c. counters.
    f_equal. cbn [Z.of_nat]. lia.
  - rewrite (visit_else_if_links n q _ Hq); walk.
    rewrite (score_exit_if q _ Hq), He.
    change (score_exit bp ?c) with c. counters.
    f_equal. lia.
Qed.

End ElseIfChain.

Lemma scored_nodes_all_eq P n :
  scored_nodes_all P n =
    if is_function_node n then true
    else P n && forallb (fun kc => scored_nodes_all P (snd kc)) (children n).
Proof. destruct n; reflexivity. Qed.

(** A node that is no control-flow construct and no self-call is passed
    over by [enter] and by [exit]. *)
Lemma score_enter_plain fn p c :
  isFunction p = false ->
  is_control_flow (node p) = false ->
  call_has_callee (node p) = true ->
  is_self_call fn (node p) = false ->
  score_enter fn p c = Ok (c, false) /\ score_exit p c = c.
Proof.
  unfold score_enter, score_exit, enter_call, enter_jump, enter_control,
    is_control_flow, call_has_callee, is_self_call, control_flow_types,
    get_required.
  unfold_tests. cbn [existsb].
  intros -> Hcf Hcallee Hself.
  repeat (apply orb_false_iff in Hcf as [?E Hcf]).
  repeat match goal with E : String.eqb _ _ = false |- _ => rewrite E; clear E end.
  cbn [orb andb].
  destruct (String.eqb (type (node p)) "CallExpression"); cbn [andb negb orb] in *;
    [|split; reflexivity].
  destruct (truthy fn); cbn [andb] in *; [|split; reflexivity].
  destruct (get (node p) "callee") as [callee|]; [|discriminate].
  cbn [bind]. rewrite Hself. split; reflexivity.
Qed.

Lemma score_visit_plain fn n :
  forall parent k c,
    scored_nodes_all
      (fun n => negb (is_control_flow n)
                && (call_has_callee n && negb (is_self_call fn n))) n = true ->
    score_visit fn parent k n c = Ok c.
Proof.
  induction n as [n IH] using Node_induction.
  intros parent k c. rewrite scored_nodes_all_eq, score_visit_eq.
  destruct (is_function_node n) eqn:Hf.
  - intros _. unfold score_enter.
    change (isFunction (mkPath n k parent)) with (is_function_node n).
    rewrite Hf. reflexivity.
  - intros H. apply andb_true_iff in H as [Hn Hkids].
    apply andb_true_iff in Hn as [Hcf Hcall].
    apply andb_true_iff in Hcall as [Hcallee Hself].
    apply negb_true_iff in Hcf, Hself.
    destruct (score_enter_plain fn (mkPath n k parent) c Hf Hcf Hcallee Hself)
      as [-> Hexit].
    cbn [bind].
    assert (Hall : score_visit_all fn (Some (mkPath n k parent)) (children n) c
                   = Ok c).
    { revert Hkids. generalize (Some (mkPath n k parent)) as pp.
      induction IH as [|[k' ch] cs IHch _ IHcs]; intros pp; cbn [forallb].
      - reflexivity.
      - intros H. apply andb_true_iff in H as [Hch Hcs].
        cbn [snd] in IHch, Hch.
        rewrite score_visit_all_cons, (IHch pp k' c Hch). cbn [bind].
        apply IHcs, Hcs. }
    rewrite Hall. cbn [bind]. rewrite Hexit. reflexivity.
Qed.

(** * The scorer *)

(** C1. A function whose body is [if (x) {} else if (y) {}] scores exactly
    2 at baseNesting 0. An If node that is the [alternate] of an If is
    charged [1 + (nesting - 1)] on enter (plus the flat 1 of a plain else
    of its own), leaves [nesting] as it is on enter and on exit, and so a
    chain of [n] else-if links after an If scores [n + 1]: linear in the
    length of the chain. *)
Theorem C1_else_if_scores_flat :
  (forall f x y k parent fn,
      calculateCognitiveComplexity
        (function_with f (if_else_if x y) k parent) 0 fn = Ok 2)
  /\ (forall fn nm op st en lc cs pnm pop pst pen plc pcs pk up c,
         let outer := mkPath (mkNode "IfStatement" pnm pop pst pen plc pcs) pk up in
         let path :=
           mkPath (mkNode "IfStatement" nm op st en lc cs)
             (Field "alternate") (Some outer) in
         let charge := if has_plain_else (node path) then 1 else 0 in
         score_enter fn path c
         = Ok (mkCounters (complexity c + (1 + (nesting c - 1)) + charge)
                 (nesting c), false)
         /\ score_exit path c = c)
  /\ (forall n f x k parent fn,
         calculateCognitiveComplexity
           (function_with f (else_if_chain x n) k parent) 0 fn
         = Ok (Z.of_nat n + 1)).
Proof.
  split; [|split].
  - intros. vm_compute. reflexivity.
  - intros.
    assert (Hp : isIfStatement path = true) by reflexivity.
    assert (He : isElseIf path = true) by reflexivity.
    rewrite (score_enter_if fn path c Hp), (enter_control_if path c Hp),
      (score_exit_if path c Hp), He.
    cbv zeta. split; [|reflexivity].
    subst charge. destruct (has_plain_else (node path));
      unfold addFundamental, addElseIf; cbn [complexity nesting];
      do 3 f_equal; lia.
  - intros. rewrite score_else_if_chain. f_equal. lia.
Qed.

(** C2. A function whose body is [if (x) { if (y) {} }] scores exactly 3 at
    baseNesting 0: the outer If is charged [1 + nesting] and raises
    [nesting] before the inner If is entered, which is charged
    [1 + (nesting + 1)]; with an [else { return; }] on the outer If the
    score is one more. *)
Theorem C2_nested_if_compounds :
  (forall f x y k parent fn,
      calculateCognitiveComplexity
        (function_with f (nested_if x y) k parent) 0 fn = Ok 3)
  /\ (forall f x y k parent fn baseNesting,
         calculateCognitiveComplexity
           (function_with f (nested_if x y) k parent) baseNesting fn
         = Ok ((1 + baseNesting) + (1 + (baseNesting + 1))))
  /\ (forall f x y k parent fn baseNesting,
         calculateCognitiveComplexity
           (function_with f (nested_if_else x y) k parent) baseNesting fn
         = Ok ((1 + baseNesting) + (1 + (baseNesting + 1)) + 1)).
Proof.
  assert (G : forall f x y k parent fn baseNesting,
             calculateCognitiveComplexity
               (function_with f (nested_if x y) k parent) baseNesting fn
             = Ok ((1 + baseNesting) + (1 + (baseNesting + 1)))).
  { intros. cbv -[Z.add Z.sub]. f_equal; lia. }
  split; [|split].
  - intros. rewrite G. reflexivity.
  - exact G.
  - intros. cbv -[Z.add Z.sub]. f_equal; lia.
Qed.

(** What [enter] does on a LogicalExpression with one of the operators. *)
Lemma score_enter_logical fn (o : logical_op) nm st en lc cs k parent c :
  let path :=
    mkPath (mkNode "LogicalExpression" nm (Some (op_string o)) st en lc cs)
      k parent in
  score_enter fn path c
  = Ok (if continues_run (op_string o) path then c else addFundamental c, false)
  /\ score_exit path c = c.
Proof.
  intros path. split; [|reflexivity].
  unfold score_enter. change (isFunction path) with false. cbv iota.
  change (enter_call fn path c) with (Ok c). cbn [bind].
  change (enter_jump path c) with c.
  unfold enter_control, continues_run.
  change (isIfStatement path) with false.
  change (isSwitchStatement path) with false.
  change (isSwitchCase path) with false.
  change (isLoop path) with false.
  change (isCatchClause path) with false.
  change (isLogicalExpression path) with true.
  change (operator (node path)) with (Some (op_string o)).
  cbv iota zeta.
  replace (counted_operator (Some (op_string o))) with true
    by (destruct o; reflexivity).
  destruct (opt_is isLogicalExpression (parentPath path));
    destruct (opt_eqb (parent_operator path) (Some (op_string o))); reflexivity.
Qed.

(** Inside a run: a left operand that is itself part of the run adds
    nothing, however long it is. *)
Lemma visit_run_operand fn (o : logical_op) x ys :
  forall p k c,
    isLogicalExpression p = true ->
    operator (node p) = Some (op_string o) ->
    score_visit fn (Some p) k (operator_run (op_string o) x ys) c = Ok c.
Proof.
  unfold operator_run.
  induction ys as [|y ys IH] using rev_ind; intros p k c Hp Hop.
  - apply visit_identifier.
  - rewrite fold_left_app. cbn [fold_left].
    set (left := fold_left _ ys _) in *.
    rewrite score_visit_eq.
    destruct (score_enter_logical fn o None None None None
                [(Field "left", left); (Field "right", Identifier y)]
                k (Some p) c) as [He Hx].
    cbv zeta in He, Hx.
    unfold LogicalExpression. rewrite He.
    unfold continues_run, parent_operator.
    cbn [parentPath opt_is]. rewrite Hp, Hop.
    replace (opt_eqb (Some (op_string o)) (Some (op_string o))) with true
      by (destruct o; reflexivity).
    cbn [andb bind children].
    rewrite score_visit_all_cons, IH by reflexivity. cbn [bind].
    rewrite score_visit_all_cons, visit_identifier. cbn [bind].
    rewrite score_visit_all_nil. cbn [bind].
    rewrite Hx. reflexivity.
Qed.

(** C3. A LogicalExpression with operator &&, || or ?? adds a flat 1 on
    enter exactly when its parent is not a LogicalExpression with the same
    operator, and nothing on exit; hence a run of one operator, of any
    length, is charged once, at its outermost node, and a function whose
    body is [if (a && b && c) {}] scores exactly 2. *)
Theorem C3_operator_run_counts_once :
  (forall f a b c k parent fn,
      calculateCognitiveComplexity
        (function_with f (if_and_run a b c) k parent) 0 fn = Ok 2)
  /\ (forall fn (o : logical_op) nm st en lc cs k parent c,
         let path :=
           mkPath (mkNode "LogicalExpression" nm (Some (op_string o)) st en lc cs)
             k parent in
         score_enter fn path c
         = Ok (if continues_run (op_string o) path then c
               else addFundamental c, false)
         /\ score_exit path c = c)
  /\ (forall (o : logical_op) f x y ys k parent fn,
         calculateCognitiveComplexity
           (function_with f
              (IfStatement (operator_run (op_string o) x (y :: ys))
                 (BlockStatement []) None) k parent) 0 fn
         = Ok 2).
Proof.
  split; [|split].
  - intros. vm_compute. reflexivity.
  - intros. apply score_enter_logical.
  - intros.
    unfold calculateCognitiveComplexity, traverseNode, function_with.
    fold (score_visit_all fn).
    cbn [node FunctionDeclaration node_of children items items_from app].
    rewrite score_visit_all_cons, visit_identifier. cbn [bind].
    rewrite score_visit_all_cons, score_visit_eq.
    set (fp := mkPath _ k parent).
    set (bp := mkPath _ (Field "body") (Some fp)).
    change (score_enter fn bp _) with (Ok (mkCounters 0 0, false)).
    cbn [bind BlockStatement node_of children items items_from].
    rewrite score_visit_all_cons, score_visit_eq.
    set (ip := mkPath _ (Index "body" 0) (Some bp)).
    change (score_enter fn ip _) with (Ok (mkCounters 1 1, false)).
    cbn [bind IfStatement node_of children field_opt].
    rewrite score_visit_all_cons.
    (* the test: the outermost node of the run *)
    destruct (exists_last (l := y :: ys)) as [ys' [z E]]; [discriminate|].
    rewrite E. unfold operator_run. rewrite fold_left_app. cbn [fold_left].
    fold (operator_run (op_string o) x ys').
    rewrite score_visit_eq. unfold LogicalExpression.
    destruct (score_enter_logical fn o None None None None
                [(Field "left", operator_run (op_string o) x ys');
                 (Field "right", Identifier z)]
                (Field "test") (Some ip) (mkCounters 1 1)) as [He _].
    pose proof (fun c' =>
                  proj2 (score_enter_logical fn o None None None None
                           [(Field "left", operator_run (op_string o) x ys');
                            (Field "right", Identifier z)]
                           (Field "test") (Some ip) c')) as Hx.
    cbv zeta in He, Hx. rewrite He.
    change (continues_run _ _) with false. cbv iota. cbn [bind children].
    rewrite score_visit_all_cons, visit_run_operand by reflexivity.
    cbn [bind].
    rewrite score_visit_all_cons, visit_identifier. cbn [bind].
    rewrite score_visit_all_nil. cbn [bind].
    rewrite Hx.
    rewrite score_visit_all_cons, visit_empty_block. cbn [bind].
    reflexivity.
Qed.

(** C4. A Switch node adds no complexity: on enter it only raises
    [nesting] by one, on exit it lowers it again. Every SwitchCase node,
    with a test or without (default), adds a flat 1 and leaves [nesting]
    alone. Hence a function whose body is
    [switch(x){case 1: break; default: break;}] scores exactly 2; and an If
    inside a case is charged at the raised nesting level. *)
Theorem C4_switch_is_free_cases_cost_one :
  (forall f x k parent fn,
      calculateCognitiveComplexity
        (function_with f (switch_default x) k parent) 0 fn = Ok 2)
  /\ (forall fn nm op st en lc cs k parent c,
         let path := mkPath (mkNode "SwitchStatement" nm op st en lc cs) k parent in
         score_enter fn path c
         = Ok (mkCounters (complexity c) (nesting c + 1), false)
         /\ score_exit path (mkCounters (complexity c) (nesting c + 1)) = c)
  /\ (forall fn nm op st en lc cs k parent c,
         let path := mkPath (mkNode "SwitchCase" nm op st en lc cs) k parent in
         score_enter fn path c
         = Ok (mkCounters (complexity c + 1) (nesting c), false)
         /\ score_exit path c = c)
  /\ (forall f x y k parent fn baseNesting,
         calculateCognitiveComplexity
           (function_with f (switch_with_if x y) k parent) baseNesting fn
         = Ok (1 + (1 + (baseNesting + 1)))).
Proof.
  split; [|split; [|split]].
  - intros. vm_compute. reflexivity.
  - intros. split.
    + reflexivity.
    + destruct c as [cx ns]. cbv -[Z.add Z.sub]. f_equal; lia.
  - intros. split; reflexivity.
  - intros. cbv -[Z.add Z.sub]. f_equal; lia.
Qed.

Lemma scored_nodes_all_and P Q n :
  scored_nodes_all P n = true ->
  scored_nodes_all Q n = true ->
  scored_nodes_all (fun m => P m && Q m) n = true.
Proof.
  induction n as [n IH] using Node_induction.
  rewrite !scored_nodes_all_eq.
  destruct (is_function_node n); [reflexivity|].
  intros [HP HPs]%andb_true_iff [HQ HQs]%andb_true_iff.
  rewrite HP, HQ. cbn [andb].
  induction IH as [|[k ch] cs IHch _ IHcs]; [reflexivity|].
  cbn [forallb snd] in *.
  apply andb_true_iff in HPs as [? ?], HQs as [? ?].
  apply andb_true_iff; split; auto.
Qed.

(** C5, as the code has it. A function whose subtree, nested functions
    apart, holds no control-flow construct (If, ternary, Switch,
    SwitchCase, loop, Catch, logical operator, break, continue) and no
    call of the function's own name (every call having its callee) scores
    exactly 0, whatever the baseNesting seed. *)
Theorem C5_no_control_flow_no_self_call_scores_zero
  (funcPath : NodePath) (baseNesting : Z) (fn : option string) :
  no_control_flow funcPath = true ->
  no_self_call fn funcPath = true ->
  calculateCognitiveComplexity funcPath baseNesting fn = Ok 0.
Proof.
  unfold no_control_flow, no_self_call, body_nodes_all,
    calculateCognitiveComplexity, traverseNode.
  fold (score_visit_all fn).
  intros Hcf Hcall.
  enough (H : forall c,
             score_visit_all fn (Some funcPath) (children (node funcPath)) c
             = Ok c) by (rewrite H; reflexivity).
  revert Hcf Hcall. generalize (Some funcPath) as parent.
  induction (children (node funcPath)) as [|[k ch] cs IH];
    intros parent Hcf Hcall c; cbn [forallb snd] in *.
  - reflexivity.
  - apply andb_true_iff in Hcf as [Hch Hcf], Hcall as [Hch' Hcall].
    rewrite score_visit_all_cons.
    rewrite score_visit_plain by (apply scored_nodes_all_and; assumption).
    cbn [bind]. apply IH; assumption.
Qed.

Lemma C5_witness_plain_call :
  no_control_flow (calling "g" "h") = true
  /\ no_self_call (Some "g") (calling "g" "h") = true
  /\ calculateCognitiveComplexity (calling "g" "h") 7 (Some "g") = Ok 0.
Proof.
  split; [reflexivity|]. split; [reflexivity|].
  apply (C5_no_control_flow_no_self_call_scores_zero (calling "g" "h") 7
           (Some "g")); reflexivity.
Defined.

(** C5, as stated, fails: [function f() { f(); }] holds no control-flow
    construct, yet the recursion rule charges its call 1. *)
Lemma C5_counterexample_self_call :
  no_control_flow (calling "f" "f") = true
  /\ calculateCognitiveComplexity (calling "f" "f") 0 (Some "f") = Ok 1.
Proof. split; vm_compute; reflexivity. Qed.

(** * The function collector *)

(** The three worked examples of name resolution. *)
Lemma name_resolution_examples :
  resolveName (initializer_path "foo" arrow) = Ok (Some "foo")
  /\ resolveName (method_path "foo") = Ok (Some "foo")
  /\ resolveName unnamed_path = Ok (Some "anonymous")
  /\ reported_names (File (Program [const_decl "foo" arrow]))
     = Ok [Some "foo"]
  /\ reported_names
       (File (Program [ExpressionStatement (ObjectExpression [method "foo"])]))
     = Ok [Some "foo"]
  /\ reported_names (File (Program [ExpressionStatement unnamed]))
     = Ok [Some "anonymous"].
Proof. repeat split; vm_compute; reflexivity. Qed.

(** The priority order, for a function that is not itself called
    [anonymous]: its own identifier first. *)
Lemma resolveName_own_identifier p id s :
  get (node p) "id" = Some id ->
  name id = Some s ->
  s <> "anonymous" ->
  resolveName p = Ok (Some s).
Proof.
  intros Hid Hname Hs. unfold resolveName, own_name.
  rewrite Hid, Hname.
  destruct (String.eqb_spec s "anonymous"); [contradiction|reflexivity].
Qed.

(** Without an identifier of its own, the function takes the name of the
    variable it initializes; failing that, of the object property it is the
    value of; failing that, its own method key; failing that,
    [anonymous]. *)
Lemma resolveName_unnamed p :
  get (node p) "id" = None ->
  resolveName p =
    (binding <- parent_identifier isVariableDeclarator "id" (parentPath p) ;;
     match binding with
     | Some id => Ok (name id)
     | None =>
         property <- parent_identifier isObjectProperty "key" (parentPath p) ;;
         match property with
         | Some k => Ok (name k)
         | None =>
             if isClassMethod p || isObjectMethod p then
               match get (node p) "key" with
               | Some k =>
                   if String.eqb (type k) "Identifier" then Ok (name k)
                   else Ok (Some "anonymous")
               | None => Ok (Some "anonymous")
               end
             else Ok (Some "anonymous")
         end
     end).
Proof.
  intros Hid. unfold resolveName, own_name. rewrite Hid. reflexivity.
Qed.

(** C6 on the code: the sentinel test [functionName === 'anonymous'] also
    fires for a function whose own identifier is [anonymous], so
    [const foo = function anonymous() {}] is reported as [foo], not under
    its declared identifier. *)
Theorem C6_declared_name_anonymous_is_overridden :
  get named_anonymous "id" = Some (Identifier "anonymous")
  /\ resolveName (initializer_path "foo" named_anonymous) = Ok (Some "foo")
  /\ reported_names (File (Program [const_decl "foo" named_anonymous]))
     = Ok [Some "foo"].
Proof. repeat split; vm_compute; reflexivity. Qed.

(** * Archives and batches *)

(** ** Root detection *)

Lemma Map_keys_set_In m k v k' :
  In k' (Map_keys (Map_set m k v)) <-> k' = k \/ In k' (Map_keys m).
Proof.
  unfold Map_keys.
  induction m as [|[k0 v0] m IH]; cbn [Map_set map fst In].
  - intuition.
  - destruct (String.eqb_spec k0 k) as [->|Hne]; cbn [map fst In].
    + intuition.
    + rewrite IH. intuition.
Qed.

Lemma Map_keys_set_NoDup m k v :
  NoDup (Map_keys m) -> NoDup (Map_keys (Map_set m k v)).
Proof.
  unfold Map_keys.
  induction m as [|[k0 v0] m IH]; cbn [Map_set map fst]; intros Hnd.
  - constructor; [intros []|constructor].
  - destruct (String.eqb_spec k0 k) as [->|Hne]; cbn [map fst].
    + exact Hnd.
    + inversion Hnd as [|? ? Hnotin Hnd']; subst.
      constructor; [|auto].
      intros Hin. apply (Map_keys_set_In m k v k0) in Hin as [->|Hin];
        [congruence | contradiction].
Qed.

Lemma detect_step_counted counts flag e :
  detect_step (counts, flag) e =
    if counted e then
      (Map_set counts (topLevelName (entryName e))
         (match Map_get counts (topLevelName (entryName e)) with
          | Some v => v
          | None => 0
          end + 1),
       flag || negb (includes_slash (entryName e)))
    else (counts, flag).
Proof.
  unfold detect_step, counted.
  destruct (String.eqb (entryName e) ""), (isDirectory e); cbn; try reflexivity.
  destruct (String.eqb (topLevelName (entryName e)) "");
    cbn; [reflexivity|].
  destruct (String.eqb (topLevelName (entryName e)) "__MACOSX");
    cbn; [reflexivity|].
  destruct (includes_slash (entryName e)), flag; reflexivity.
Qed.

(** What the loop leaves in [counts] and [hasTopLevelFiles]. *)
Lemma detect_loop entries :
  forall counts flag counts' flag',
    fold_left detect_step entries (counts, flag) = (counts', flag') ->
    (forall k, In k (Map_keys counts')
               <-> In k (Map_keys counts) \/ In k (top_levels entries))
    /\ (NoDup (Map_keys counts) -> NoDup (Map_keys counts'))
    /\ flag' = flag || some_top_level_file entries.
Proof.
  unfold top_levels, some_top_level_file, considered.
  induction entries as [|e es IH]; intros counts flag counts' flag';
    cbn [fold_left].
  - intros [= <- <-]. cbn. split; [intuition|]. split; [auto|].
    now rewrite orb_false_r.
  - rewrite detect_step_counted. cbn [filter].
    destruct (counted e); [|apply IH].
    intros H. apply IH in H as (Hk & Hnd & Hf).
    cbn [map existsb]. split; [|split].
    + intros k. rewrite Hk, Map_keys_set_In. cbn [In]. intuition.
    + intros H. apply Hnd, Map_keys_set_NoDup, H.
    + rewrite Hf, orb_assoc. reflexivity.
Qed.

Lemma detectZipRootFolder_eq entries :
  exists counts,
    (forall k, In k (Map_keys counts) <-> In k (top_levels entries))
    /\ NoDup (Map_keys counts)
    /\ detectZipRootFolder entries =
         if some_top_level_file entries then None
         else if Nat.eqb (Map_size counts) 1 then
                match Map_keys counts with
                | k :: _ => Some k
                | [] => None
                end
              else None.
Proof.
  unfold detectZipRootFolder.
  destruct (fold_left detect_step entries ([], false)) as [counts flag] eqn:E.
  apply detect_loop in E as (Hk & Hnd & ->). exists counts. cbn [orb].
  split; [|split].
  - intros k. rewrite Hk. cbn. intuition.
  - apply Hnd. constructor.
  - reflexivity.
Qed.

Lemma includes_slash_drop s :
  includes_slash (drop_slashes s) = true -> includes_slash s = true.
Proof.
  induction s as [|c s IH]; cbn; [auto|].
  destruct (is_slash c) eqn:E; cbn; [reflexivity|].
  rewrite E. auto.
Qed.

(** A path that still has a slash once the leading [./] is gone had one. *)
Lemma includes_slash_strip s :
  includes_slash (strip_dot_slash s) = true -> includes_slash s = true.
Proof.
  destruct s as [|c1 [|c2 s]]; cbn [strip_dot_slash]; auto.
  destruct (Ascii.eqb c1 "." && is_slash c2) eqn:E; [|auto].
  apply andb_true_iff in E as [_ E]. intros _.
  cbn. rewrite E. apply orb_true_r.
Qed.

Lemma NoDup_all_equal (l : list string) r :
  NoDup l -> (forall x, In x l -> x = r) -> In r l -> l = [r].
Proof.
  intros Hnd Hall Hin.
  destruct l as [|a l]; [contradiction|].
  assert (a = r) by (apply Hall; left; reflexivity). subst a.
  destruct l as [|b l]; [reflexivity|].
  assert (b = r) by (apply Hall; right; left; reflexivity). subst b.
  inversion Hnd as [|? ? Hnotin _]. exfalso. apply Hnotin. left. reflexivity.
Qed.

Lemma two_distinct_members (l : list string) a b :
  In a l -> In b l -> a <> b -> Nat.eqb (List.length l) 1 = false.
Proof.
  intros Ha Hb Hab.
  destruct l as [|x [|y l]]; [contradiction| |reflexivity].
  destruct Ha as [<-|[]], Hb as [<-|[]]. contradiction.
Qed.

Lemma Map_size_keys counts : Map_size counts = List.length (Map_keys counts).
Proof. unfold Map_size, Map_keys. now rewrite length_map. Qed.

(** C7, as the code has it. Root detection looks only at the entries it
    counts: non-directory entries whose first segment, after a leading [./]
    is stripped, is neither empty nor [__MACOSX]. Over those it returns
    null whenever the stored path of one has no ['/']; it returns their
    first segment when there is at least one, each has a ['/'] after the
    [./] is stripped, and all share that first segment; and it returns null
    when two of them differ in their first segment. The three worked
    examples come out as [root], null and null. *)
Theorem C7_root_detection_over_counted_entries :
  (forall entries,
      ((exists e, In e (considered entries)
                  /\ includes_slash (entryName e) = false) ->
       detectZipRootFolder entries = None)
      /\ (forall root,
             considered entries <> [] ->
             (forall e, In e (considered entries) ->
                        includes_slash (strip_dot_slash (entryName e)) = true
                        /\ topLevelName (entryName e) = root) ->
             detectZipRootFolder entries = Some root)
      /\ ((exists e1 e2,
              In e1 (considered entries) /\ In e2 (considered entries)
              /\ topLevelName (entryName e1) <> topLevelName (entryName e2)) ->
          detectZipRootFolder entries = None))
  /\ detectZipRootFolder (files ["root/a.js"; "root/sub/b.js"]) = Some "root"
  /\ detectZipRootFolder (files ["a.js"; "root/b.js"]) = None
  /\ detectZipRootFolder (files ["a/x.js"; "b/y.js"]) = None.
Proof.
  split; [|repeat split; reflexivity].
  intros entries.
  destruct (detectZipRootFolder_eq entries) as (counts & Hk & Hnd & ->).
  split; [|split].
  - intros (e & Hin & Hno).
    replace (some_top_level_file entries) with true; [reflexivity|].
    symmetry. apply existsb_exists. exists e. rewrite Hno. auto.
  - intros root Hne Hall.
    replace (some_top_level_file entries) with false.
    + assert (Hkeys : Map_keys counts = [root]).
      { apply NoDup_all_equal; [exact Hnd| |].
        - intros k Hin. apply Hk in Hin. unfold top_levels in Hin.
          apply in_map_iff in Hin as (e & <- & He). apply Hall, He.
        - apply Hk. unfold top_levels.
          destruct (considered entries) as [|e es] eqn:E; [congruence|].
          cbn [map]. left. apply Hall. left. reflexivity. }
      rewrite Map_size_keys, Hkeys. reflexivity.
    + symmetry. apply not_true_is_false. intros Hex.
      apply existsb_exists in Hex as (e & He & Hno).
      apply Hall in He as [Hs _]. apply includes_slash_strip in Hs.
      rewrite Hs in Hno. discriminate.
  - intros (e1 & e2 & H1 & H2 & Hne).
    destruct (some_top_level_file entries); [reflexivity|].
    rewrite Map_size_keys.
    rewrite (two_distinct_members (Map_keys counts)
               (topLevelName (entryName e1)) (topLevelName (entryName e2)));
      [reflexivity| | |exact Hne];
      apply Hk; unfold top_levels; apply in_map_iff; eauto.
Qed.

Lemma C7_witness_detected_root :
  detectZipRootFolder
    (files ["./proj/a.js"; "proj/lib/b.ts"; "__MACOSX/proj/._a.js"])
  = Some "proj"
  /\ detectZipRootFolder (files ["README"; "proj/a.js"]) = None
  /\ detectZipRootFolder (files ["a/x.js"; "b/y.js"; "a/z.js"]) = None.
Proof.
  split; [|split].
  - apply (proj1 (proj2 (proj1 C7_root_detection_over_counted_entries
                           (files ["./proj/a.js"; "proj/lib/b.ts";
                                   "__MACOSX/proj/._a.js"])))).
    + discriminate.
    + intros e [<-|[<-|[]]]; split; reflexivity.
  - apply (proj1 (proj1 C7_root_detection_over_counted_entries
                    (files ["README"; "proj/a.js"]))).
    exists (mkEntry "README" false). split; [left|]; reflexivity.
  - apply (proj2 (proj2 (proj1 C7_root_detection_over_counted_entries
                           (files ["a/x.js"; "b/y.js"; "a/z.js"])))).
    exists (mkEntry "a/x.js" false), (mkEntry "b/y.js" false).
    split; [left; reflexivity|]. split; [right; left; reflexivity|].
    discriminate.
Defined.

(** The test for a file at the top level reads the stored name: a file
    stored as [./a.js] is not seen as one. *)
Lemma detect_dot_slash_file :
  detectZipRootFolder (files ["./a.js"]) = Some "a.js"
  /\ detectZipRootFolder (files ["a.js"]) = None.
Proof. split; reflexivity. Qed.

(** C7, as stated, fails: the two non-directory entries below have the
    distinct first segments [root] and [__MACOSX], and both paths hold a
    ['/'], yet the detected root is [root], not null. *)
Lemma C7_counterexample_macosx_noise :
  let entries := files ["root/a.js"; "__MACOSX/root/._a.js"] in
  map (fun e => topLevelName (entryName e)) entries = ["root"; "__MACOSX"]
  /\ forallb (fun e => negb (isDirectory e) && includes_slash (entryName e))
       entries = true
  /\ detectZipRootFolder entries = Some "root".
Proof. repeat split; reflexivity. Qed.

Section BatchClaims.

Variable parse : string -> result Node.
Variable crawl : Node -> result unit.

(** The walk pushes, for each code file it reaches and in the order it
    reaches them, the result of that file alone. *)
Lemma processEntry_eq rootPath e :
  forall directory results,
    processEntry parse crawl rootPath directory e results
    = (results ++ map (analyzed parse crawl rootPath) (code_files directory e))%list.
Proof.
  induction e as [file content | file entries IH] using FsNode_induction;
    intros directory results.
  - cbn [processEntry code_files].
    destruct (isCodeFile file); cbn [map]; [reflexivity|].
    now rewrite app_nil_r.
  - cbn [processEntry code_files].
    destruct (ignored_folder file); cbn [map]; [now rewrite app_nil_r|].
    revert results.
    induction IH as [|e' es He' _ IHes]; intros results; cbn [flat_map map].
    + now rewrite app_nil_r.
    + rewrite IHes, He', map_app, app_assoc. reflexivity.
Qed.

Lemma processDirectory_eq rootPath entries :
  forall results,
    processDirectory parse crawl rootPath entries results
    = (results
         ++ map (analyzed parse crawl rootPath) (flat_map (code_files rootPath) entries))%list.
Proof.
  unfold processDirectory.
  induction entries as [|e es IH]; intros results; cbn [fold_left flat_map map].
  - now rewrite app_nil_r.
  - rewrite IH, processEntry_eq, map_app, app_assoc. reflexivity.
Qed.

(** C8. A file whose source fails to parse yields a result with its
    fileName and the error message and without metrics; every result has
    exactly one of [metrics] and [error]; and the batch holds, for every
    code file the walk reaches, the result of that file alone, so one
    file's failure takes no other file's result away. *)
Theorem C8_parse_failure_stays_in_its_file :
  (forall code message filePath rootPath,
      parse code = Throw message ->
      analyzeFileAt parse crawl (Ok code) filePath (Some rootPath)
      = mkFileResult (slashed (relative rootPath filePath)) None (Some message))
  /\ (forall content filePath rootPathForRel,
         let r := analyzeFileAt parse crawl content filePath rootPathForRel in
         (metrics r = None /\ error r <> None)
         \/ (metrics r <> None /\ error r = None))
  /\ (forall rootPath entries,
         processDirectory parse crawl rootPath entries []
         = map (analyzed parse crawl rootPath) (flat_map (code_files rootPath) entries)).
Proof.
  split; [|split].
  - intros code message filePath rootPath Hparse.
    unfold analyzeFileAt, calculateMetrics. cbn [bind]. rewrite Hparse.
    reflexivity.
  - intros content filePath rootPathForRel. cbv zeta. unfold analyzeFileAt.
    destruct (code <- content ;; calculateMetrics parse crawl code);
      cbn [metrics error]; [right | left]; split; congruence.
  - intros. apply processDirectory_eq.
Qed.

End BatchClaims.

Lemma C8_witness_bad_file_among_good :
  analyzeFileAt sample_parse accepts (Ok "const = ;")
    (sample_root ++ ["bad.js"])%list (Some sample_root)
  = mkFileResult "bad.js" None (Some "Unexpected token")
  /\ processDirectory sample_parse accepts sample_root sample_tree []
     = [mkFileResult "bad.js" None (Some "Unexpected token");
        mkFileResult "src/good.js" (Some (mkMetrics 1 1 0 [])) None].
Proof.
  split.
  - apply (proj1 (C8_parse_failure_stays_in_its_file sample_parse accepts)
             "const = ;" "Unexpected token").
    reflexivity.
  - rewrite (proj2 (proj2 (C8_parse_failure_stays_in_its_file sample_parse accepts))).
    reflexivity.
Defined.

(** ** What the collector returns *)

Lemma count_ancestors_ge :
  forall curr b, b <= count_ancestors curr b.
Proof.
  fix IH 1. intros [n k up] b. cbn [count_ancestors].
  set (b' := if opens_nesting _ then b + 1 else b).
  assert (b <= b') by (subst b'; destruct (opens_nesting _); lia).
  destruct up as [next|]; [|exact H].
  specialize (IH next b'). lia.
Qed.

Lemma baseNestingOf_nonneg p : 0 <= baseNestingOf p.
Proof.
  unfold baseNestingOf. destruct (parentPath p); [|lia].
  apply count_ancestors_ge.
Qed.

(** Every score the collector records is a natural number. *)
Lemma calculateMetrics_scores_nonneg parse crawl code m :
  calculateMetrics parse crawl code = Ok m ->
  Forall (fun f => 0 <= f_CC f) (functions m).
Proof.
  unfold calculateMetrics.
  destruct (parse code) as [ast|msg]; cbn [bind]; [|discriminate].
  intros H.
  apply (traverse_keeps (collect_enter code) (fun _ m => m)
           (fun m => Forall (fun f => 0 <= f_CC f) (functions m))) in H.
  - exact H.
  - intros p s s' skipped. unfold collect_enter.
    destruct (negb (isFunction p)); [intros [= <- _]; auto|].
    destruct (resolveName p) as [fn|msg]; cbn [bind]; [|discriminate].
    destruct (calculateCognitiveComplexity p (baseNestingOf p) fn)
      as [cc|msg] eqn:Hcc; cbn [bind]; [|discriminate].
    intros [= <- _] Hs. cbn [functions].
    apply Forall_app. split; [exact Hs|].
    constructor; [|constructor]. cbn [f_CC].
    apply (score_nonneg p (baseNestingOf p) fn cc (baseNestingOf_nonneg p) Hcc).
  - auto.
  - constructor.
Qed.

Lemma flatten_functions_eq fs :
  forall sum mx,
    exists rs,
      flatten_functions (sum, mx) fs = ((sum + total_CC fs, max_CC mx fs), rs)
      /\ Forall2 flattens fs rs.
Proof.
  induction fs as [|f fs IH]; intros sum mx; cbn [flatten_functions].
  - exists []. split; [|constructor].
    cbn. now rewrite Z.add_0_r.
  - unfold flatten_function at 1. cbv zeta.
    destruct (IH (sum + f_CC f) (if mx <? f_CC f then f_CC f else mx))
      as (rs & -> & Hrs).
    eexists. split.
    + cbn [total_CC fold_right max_CC fold_left].
      fold (total_CC fs).
      replace (Z.max mx (f_CC f)) with (if mx <? f_CC f then f_CC f else mx)
        by (destruct (Z.ltb_spec mx (f_CC f)); lia).
      rewrite Z.add_assoc. reflexivity.
    + constructor; [|exact Hrs]. repeat split.
Qed.

Lemma max_CC_bounds fs :
  forall start,
    start <= max_CC start fs
    /\ (forall f, In f fs -> f_CC f <= max_CC start fs)
    /\ (max_CC start fs = start \/ In (max_CC start fs) (map f_CC fs)).
Proof.
  induction fs as [|f fs IH]; intros start; cbn [max_CC fold_left map In].
  - split; [lia|]. split; [intros f []|]. left. reflexivity.
  - fold (max_CC (Z.max start (f_CC f)) fs).
    destruct (IH (Z.max start (f_CC f))) as (Hge & Hall & Hin).
    split; [lia|]. split.
    + intros g [<-|Hg]; [lia|]. apply Hall, Hg.
    + destruct Hin as [E|Hin]; [|right; right; exact Hin].
      destruct (Z.max_spec start (f_CC f)) as [[_ E']|[_ E']].
      * right. left. rewrite E. symmetry. exact E'.
      * left. rewrite E. exact E'.
Qed.

(** From 0 over scores that are not negative, the running maximum is the
    largest score. *)
Lemma max_CC_is_maximum fs :
  fs <> [] ->
  Forall (fun f => 0 <= f_CC f) fs ->
  is_maximum (map f_CC fs) (max_CC 0 fs).
Proof.
  intros Hne Hpos.
  destruct (max_CC_bounds fs 0) as (Hge & Hall & Hin). split.
  - destruct Hin as [E|Hin]; [|exact Hin].
    destruct fs as [|f fs]; [congruence|].
    assert (f_CC f = 0).
    { inversion Hpos; subst.
      specialize (Hall f (or_introl eq_refl)). lia. }
    rewrite E. cbn [map In]. left. assumption.
  - intros x Hx. apply in_map_iff in Hx as (f & <- & Hf). apply Hall, Hf.
Qed.

Lemma responseMetrics_eq requested babelMetrics :
  let fs := functions babelMetrics in
  let report := responseMetrics requested babelMetrics in
  Forall2 flattens fs (r_functions report)
  /\ function_count report = Z.of_nat (List.length fs)
  /\ complexity_max report = max_CC 0 fs
  /\ complexity_avg report
     = match fs with
       | [] => PrimFloat.zero
       | _ :: _ =>
           parse_fixed2
             (PrimFloat.div (float_of_Z (total_CC fs))
                (float_of_Z (Z.of_nat (List.length fs))))
       end
  /\ filename report = requested
  /\ language report = "javascript"
  /\ total_loc report = LOC babelMetrics
  /\ total_nloc report = NLOC babelMetrics.
Proof.
  cbv zeta. unfold responseMetrics.
  destruct (flatten_functions_eq (functions babelMetrics) 0 0)
    as (rs & -> & Hrs).
  cbn [r_functions function_count complexity_max complexity_avg
         filename language total_loc total_nloc].
  pose proof (Forall2_length Hrs) as Hlen.
  repeat split; try assumption.
  - now rewrite Hlen.
  - rewrite <- Hlen.
    destruct (functions babelMetrics) as [|f fs]; [reflexivity|].
    cbn [List.length]. rewrite Z.add_0_l.
    destruct (Z.ltb_spec 0 (Z.of_nat (S (List.length fs)))); [reflexivity|lia].
Qed.

(** [toFixed(2)] rounds to the nearest hundredth, a tie going up: for a
    finite [x] of magnitude [m * 2^e], the printed [n] hundredths satisfy
    [-1/2 < n - 100 * m * 2^e <= 1/2]. Written over the integers, with
    [v / d] the magnitude of [x]. *)
Lemma toFixed2_nearest x s m e n :
  Prim2SF x = S754_finite s m e ->
  toFixed2 x = Some n ->
  let d := 2 ^ Z.max 0 (- e) in
  let v := Zpos m * 2 ^ Z.max 0 e in
  - d < 2 * (n * d - 100 * v) <= d.
Proof.
  unfold toFixed2. intros -> [= <-]. cbv zeta. unfold hundredths.
  destruct (Z.leb_spec 0 e) as [He|He].
  - rewrite (Z.max_l 0 (- e)), (Z.max_r 0 e) by lia.
    change (2 ^ 0) with 1.
    replace (100 * Zpos m * 2 ^ e * 1 - 100 * (Zpos m * 2 ^ e)) with 0 by ring.
    lia.
  - rewrite (Z.max_r 0 (- e)), (Z.max_l 0 e) by lia.
    change (2 ^ 0) with 1. rewrite Z.mul_1_r.
    assert (Hd : 0 < 2 ^ (- e)) by (apply Z.pow_pos_nonneg; lia).
    set (d := 2 ^ (- e)) in *.
    pose proof (Z.div_mod (200 * Zpos m + d) (2 * d) ltac:(lia)) as Hdm.
    pose proof (Z.mod_pos_bound (200 * Zpos m + d) (2 * d) ltac:(lia)) as Hr.
    nia.
Qed.

Lemma has_no_function_eq n :
  has_no_function n =
    negb (is_function_node n)
    && forallb (fun kc => has_no_function (snd kc)) (children n).
Proof. destruct n; reflexivity. Qed.

Lemma collect_visit_function_free code n :
  forall parent k metrics,
    has_no_function n = true ->
    visit (collect_enter code) (fun _ m => m) parent k n metrics = Ok metrics.
Proof.
  induction n as [n IH] using Node_induction.
  intros parent k metrics. rewrite has_no_function_eq, visit_eq. cbv zeta.
  intros [Hn Hkids]%andb_true_iff.
  unfold collect_enter.
  change (isFunction (mkPath n k parent)) with (is_function_node n).
  rewrite Hn. cbn [bind].
  enough (H : forall pp,
             visit_all (collect_enter code) (fun _ m => m) pp (children n)
               metrics = Ok metrics) by (rewrite H; reflexivity).
  induction IH as [|[k' ch] cs IHch _ IHcs]; intros pp; cbn [visit_all].
  - reflexivity.
  - cbn [forallb snd] in *. apply andb_true_iff in Hkids as [Hch Hcs].
    rewrite (IHch pp k' metrics Hch). cbn [bind]. apply IHcs, Hcs.
Qed.

Lemma calculateMetrics_function_free parse crawl code ast :
  parse code = Ok ast ->
  crawl ast = Ok tt ->
  function_free ast = true ->
  calculateMetrics parse crawl code
  = Ok (mkMetrics (count_lines code) (count_nonblank_lines code) 0 []).
Proof.
  unfold calculateMetrics, function_free, traverse. intros -> Hcrawl H.
  cbn [bind]. rewrite Hcrawl.
  generalize (@None NodePath) as pp.
  generalize (mkMetrics (count_lines code) (count_nonblank_lines code) 0 [])
    as metrics.
  induction (children ast) as [|[k ch] cs IH]; intros metrics pp;
    cbn [visit_all].
  - reflexivity.
  - cbn [forallb snd] in H. apply andb_true_iff in H as [Hch Hcs].
    rewrite (collect_visit_function_free code ch pp k metrics Hch).
    cbn [bind]. apply IH, Hcs.
Qed.

(** A call that returns has had its scopes built. *)
Lemma calculateMetrics_crawled parse crawl code ast m :
  parse code = Ok ast ->
  calculateMetrics parse crawl code = Ok m ->
  crawl ast = Ok tt.
Proof.
  unfold calculateMetrics, traverse. intros ->. cbn [bind].
  destruct (crawl ast) as [[]|message]; [reflexivity | discriminate].
Qed.

(** The number of an integer is the one the integer-to-float conversion
    of the machine gives, as far as that one goes. *)
Lemma binary64_of_uint63 z :
  0 <= z < 2 ^ 63 -> binary64 z = PrimFloat.of_uint63 (Uint63.of_Z z).
Proof.
  intros H. unfold binary64.
  rewrite <- (SF2Prim_Prim2SF (PrimFloat.of_uint63 (Uint63.of_Z z))).
  rewrite of_uint63_spec, Uint63.of_Z_spec, Z.mod_small; [reflexivity|].
  exact H.
Qed.

(** What [parseFloat(x.toFixed(2))] returns is [x] rounded to two
    decimals. *)
Lemma parse_fixed2_two_decimals x : two_decimals x (parse_fixed2 x).
Proof.
  unfold two_decimals, parse_fixed2.
  pose proof (toFixed2_nearest x) as Hnear.
  pose proof (ltb_spec x PrimFloat.zero) as Hlt.
  unfold toFixed2 in *.
  destruct (Prim2SF x) as [s| s | |s m e]; try reflexivity.
  - cbv zeta. rewrite Hlt. reflexivity.
  - exists (hundredths m e). split.
    + apply (Hnear s m e); reflexivity.
    + cbv zeta. rewrite Hlt. destruct s; reflexivity.
Qed.

(** Some averages: 3/2, 4/3, 1/8 and 201/200. The last two sit on a tie
    in decimal; the float 0.125 is exact and goes up, the float nearest to
    1.005 lies below it and goes down. *)
Lemma complexity_avg_examples :
  let avg ccs :=
    complexity_avg
      (responseMetrics "a.js"
         (mkMetrics 1 1 (Z.of_nat (List.length ccs))
            (map (fun cc => mkFunctionRecord None 0 cc None None) ccs))) in
  avg [1; 2] = 1.5%float
  /\ avg [1; 1; 2] = PrimFloat.div (binary64 133) (binary64 100)
  /\ avg [1; 0; 0; 0; 0; 0; 0; 0]
     = PrimFloat.div (binary64 13) (binary64 100)
  /\ avg (201 :: repeat 0 199) = 1%float.
Proof. repeat split; vm_compute; reflexivity. Qed.

(** C9. The answer to an inline-code request whose source parses is the
    flattened report: entry by entry, [cyclomatic_complexity] is the
    cognitive score, [long_name] is [name], [end_line], [token_count] and
    [max_nesting_depth] are 0; [complexity_max] is the largest score; and
    [complexity_avg] is the mean of the scores rounded to two decimals:
    the number of the [n] hundredths nearest to the mean, the larger [n]
    on a tie. *)
Theorem C9_inline_report_is_flattened
  (parse : string -> result Node) (crawl : Node -> result unit)
  (code requested : string)
  (babelMetrics : Metrics) :
  calculateMetrics parse crawl code = Ok babelMetrics ->
  truthy (Some code) = true ->
  truthy (Some requested) = true ->
  exists report,
    analyze_code parse crawl (Some code) (Some requested) = Json report
    /\ filename report = requested
    /\ report_flattens babelMetrics report.
Proof.
  intros Hm Hcode Hfile.
  exists (responseMetrics requested babelMetrics).
  unfold analyze_code. rewrite Hcode, Hfile, Hm. cbn [negb orb].
  split; [reflexivity|].
  destruct (responseMetrics_eq requested babelMetrics)
    as (Hfs & Hcount & Hmax & Havg & Hname & Hlang & Hloc & Hnloc).
  split; [exact Hname|].
  unfold report_flattens. cbv zeta.
  repeat (split; [assumption|]).
  pose proof (calculateMetrics_scores_nonneg parse crawl code babelMetrics Hm) as Hpos.
  destruct (functions babelMetrics) as [|f fs] eqn:E.
  - split; [exact Havg | exact Hmax].
  - split.
    + rewrite Havg. apply parse_fixed2_two_decimals.
    + rewrite Hmax. apply max_CC_is_maximum; [discriminate | exact Hpos].
Qed.

Lemma C9_witness_two_functions :
  exists report,
    analyze_code (table_parse [(two_functions_source, two_functions)]) accepts
      (Some two_functions_source) (Some "a.js") = Json report
    /\ filename report = "a.js"
    /\ report_flattens
         (mkMetrics 1 1 2
            [mkFunctionRecord (Some "f") 1 1 None None;
             mkFunctionRecord (Some "g") 1 0 None None])
         report.
Proof.
  apply (C9_inline_report_is_flattened
           (table_parse [(two_functions_source, two_functions)]) accepts
           two_functions_source "a.js"); reflexivity.
Defined.

(** C10. When [calculateMetrics] returns and has found no function, the
    report has [function_count = 0], [complexity_avg = 0] and
    [complexity_max = 0]: the division by [function_count] sits behind the
    test [function_count > 0] and is not evaluated. That is the case of a
    source whose tree holds no function node. *)
Theorem C10_no_functions_no_division
  (parse : string -> result Node) (crawl : Node -> result unit)
  (code requested : string) (babelMetrics : Metrics) :
  calculateMetrics parse crawl code = Ok babelMetrics ->
  truthy (Some code) = true ->
  truthy (Some requested) = true ->
  (functions babelMetrics = [] ->
   exists report,
     analyze_code parse crawl (Some code) (Some requested) = Json report
     /\ r_functions report = []
     /\ function_count report = 0
     /\ complexity_avg report = PrimFloat.zero
     /\ complexity_max report = 0)
  /\ (forall ast,
         parse code = Ok ast ->
         function_free ast = true ->
         functions babelMetrics = []).
Proof.
  intros Hm Hcode Hfile. split.
  - intros Hnone. exists (responseMetrics requested babelMetrics).
    unfold analyze_code. rewrite Hcode, Hfile, Hm. cbn [negb orb].
    split; [reflexivity|].
    unfold responseMetrics. rewrite Hnone. cbn. repeat split.
  - intros ast Hparse Hfree.
    pose proof (calculateMetrics_crawled parse crawl code ast babelMetrics
                  Hparse Hm) as Hcrawl.
    rewrite (calculateMetrics_function_free parse crawl code ast
               Hparse Hcrawl Hfree) in Hm.
    injection Hm as <-. reflexivity.
Qed.

Lemma C10_witness_constant_only :
  (exists report,
      analyze_code (table_parse [("const x = 1;", no_functions)]) accepts
        (Some "const x = 1;") (Some "a.js") = Json report
      /\ r_functions report = []
      /\ function_count report = 0
      /\ complexity_avg report = PrimFloat.zero
      /\ complexity_max report = 0)
  /\ functions (mkMetrics 1 1 0 []) = [].
Proof.
  pose proof (C10_no_functions_no_division
                (table_parse [("const x = 1;", no_functions)]) accepts
                "const x = 1;" "a.js" (mkMetrics 1 1 0 [])
                eq_refl eq_refl eq_refl) as [Hreport Hnone].
  split.
  - apply Hreport. reflexivity.
  - apply (Hnone no_functions); reflexivity.
Defined.

(** A tree the scope builder refuses: [calculateMetrics] throws what the
    builder threw, and the endpoint answers 500. *)
Lemma calculateMetrics_refused parse crawl code ast message :
  parse code = Ok ast ->
  crawl ast = Throw message ->
  calculateMetrics parse crawl code = Throw message
  /\ (truthy (Some code) = true ->
      forall requested,
        truthy (Some requested) = true ->
        analyze_code parse crawl (Some code) (Some requested)
        = ServerError ("Failed to analyze code: " ++ message)).
Proof.
  intros Hparse Hcrawl.
  assert (H : calculateMetrics parse crawl code = Throw message).
  { unfold calculateMetrics, traverse. rewrite Hparse. cbn [bind].
    rewrite Hcrawl. reflexivity. }
  split; [exact H|].
  intros Hcode requested Hfile. unfold analyze_code.
  rewrite Hcode, Hfile, H. reflexivity.
Qed.

(** * Further properties of the scorer *)

(** ** Nesting is restored *)

Lemma score_visit_restores_nesting fn n :
  forall parent k c c',
    score_visit fn parent k n c = Ok c' -> nesting c' = nesting c.
Proof.
  induction n as [n IH] using Node_induction.
  intros parent k c c'. rewrite score_visit_eq.
  set (p := mkPath n k parent). unfold score_enter.
  destruct (isFunction p); cbn [bind].
  { intros [= <-]. reflexivity. }
  destruct (enter_call fn p c) as [c1|m] eqn:Hcall; cbn [bind]; [|discriminate].
  apply enter_call_nesting in Hcall as [Hn1 _].
  pose proof (enter_jump_nesting p c1) as [Hn2 _].
  set (c2 := enter_jump p c1) in *.
  destruct (score_visit_all fn (Some p) (children n) (enter_control p c2))
    as [c3|m] eqn:Hkids; cbn [bind]; [|discriminate].
  intros [= <-].
  assert (Hkid : nesting c3 = nesting (enter_control p c2)).
  { revert Hkids. generalize (enter_control p c2) as s.
    induction IH as [|[k' ch] cs IHch _ IHcs]; intros s.
    - rewrite score_visit_all_nil. intros [= <-]. reflexivity.
    - rewrite score_visit_all_cons.
      destruct (score_visit fn (Some p) k' ch s) as [s1|m] eqn:Hch; cbn [bind];
        [|discriminate].
      intros Hrest. cbn [snd] in IHch.
      apply IHch in Hch. apply IHcs in Hrest. congruence. }
  destruct (exit_undoes_enter p c2 c3 Hkid) as [Hn4 _]. congruence.
Qed.

(** X1. Whatever subtree a scoring traversal visits, and whatever it holds
    (else-if chains, switches, nested functions), [nesting] is back at its
    value from before the visit when the visit returns: every [nesting++]
    of [enter] is matched by one [nesting--] of [exit]. *)
Theorem X1_visit_restores_nesting fn parent k n c c' :
  score_visit fn parent k n c = Ok c' -> nesting c' = nesting c.
Proof. apply score_visit_restores_nesting. Qed.

Lemma X1_witness_switch_with_if :
  score_visit (Some "f") None (Index "body" 0) (switch_with_if "x" "y")
    (mkCounters 0 4) = Ok (mkCounters 7 4)
  /\ nesting (mkCounters 7 4) = nesting (mkCounters 0 4).
Proof.
  assert (H : score_visit (Some "f") None (Index "body" 0)
                (switch_with_if "x" "y") (mkCounters 0 4)
              = Ok (mkCounters 7 4)) by reflexivity.
  split; [exact H|].
  exact (X1_visit_restores_nesting (Some "f") None (Index "body" 0)
           (switch_with_if "x" "y") (mkCounters 0 4) (mkCounters 7 4) H).
Defined.

(** X2. The score of a function is never negative when the seed is not:
    the only charge that subtracts, the [1 + (nesting - 1)] of an else-if,
    is [nesting], and [nesting] never falls below the seed. *)
Theorem X2_score_is_not_negative funcPath baseNesting fn cc :
  0 <= baseNesting ->
  calculateCognitiveComplexity funcPath baseNesting fn = Ok cc ->
  0 <= cc.
Proof. apply score_nonneg. Qed.

Lemma X2_witness_else_if_chain :
  calculateCognitiveComplexity
    (function_with "f" (else_if_chain "x" 3) (Index "body" 0) None) 0
    (Some "f") = Ok 4
  /\ 0 <= 4.
Proof.
  split; [reflexivity|].
  apply (X2_score_is_not_negative
           (function_with "f" (else_if_chain "x" 3) (Index "body" 0) None) 0
           (Some "f") 4); [lia | reflexivity].
Defined.

(** ** The seed enters the score linearly *)

Lemma shift_eta c : shift 0 0 c = c.
Proof. destruct c; unfold shift; cbn. now rewrite !Z.add_0_r. Qed.

Lemma counters_eq c1 c2 :
  complexity c1 = complexity c2 -> nesting c1 = nesting c2 -> c1 = c2.
Proof. destruct c1, c2; cbn; congruence. Qed.

Lemma enter_call_shift fn p a d c :
  enter_call fn p (shift a d c)
  = (c1 <- enter_call fn p c ;; Ok (shift a d c1)).
Proof.
  unfold enter_call.
  destruct (isCallExpression p && truthy fn); [|reflexivity].
  destruct (get_required (node p) "callee") as [callee|m]; cbn [bind];
    [|reflexivity].
  destruct (_ && _); cbn [bind]; f_equal.
  apply counters_eq; unfold shift; counters; lia.
Qed.

Lemma enter_jump_shift p a d c :
  enter_jump p (shift a d c) = shift a d (enter_jump p c).
Proof.
  unfold enter_jump. destruct (_ && _); [|reflexivity].
  apply counters_eq; unfold shift; counters; lia.
Qed.

Lemma weighs_nesting_path p :
  weighs_nesting (node p)
  = if isIfStatement p || isLoop p || isCatchClause p
       || isConditionalExpression p
    then 1 else 0.
Proof.
  unfold weighs_nesting, nesting_weighted_types. unfold_tests. cbn [existsb].
  rewrite orb_false_r, !orb_assoc. reflexivity.
Qed.

(** Raising [nesting] by [d] before a node is entered raises its charge by
    [d] when the node is a structural one, and by nothing otherwise. *)
Lemma enter_control_shift p a d c :
  enter_control p (shift a d c)
  = shift (a + d * weighs_nesting (node p)) d (enter_control p c).
Proof.
  rewrite weighs_nesting_path.
  split_control p; apply counters_eq; unfold shift; counters; lia.
Qed.

Lemma score_exit_shift p a d c :
  score_exit p (shift a d c) = shift a d (score_exit p c).
Proof.
  unfold score_exit. split_on_type p;
    try destruct (isElseIf p); cbn [negb];
    try reflexivity; apply counters_eq; unfold shift; counters; lia.
Qed.

Lemma nesting_weight_eq n :
  nesting_weight n =
    if is_function_node n then 0
    else weighs_nesting n + nesting_weight_all (children n).
Proof. destruct n; reflexivity. Qed.

Lemma score_visit_shift fn n :
  forall parent k a d c c',
    score_visit fn parent k n c = Ok c' ->
    score_visit fn parent k n (shift a d c)
    = Ok (shift (a + d * nesting_weight n) d c').
Proof.
  induction n as [n IH] using Node_induction.
  intros parent k a d c c'. rewrite !score_visit_eq, nesting_weight_eq.
  set (p := mkPath n k parent). unfold score_enter.
  change (isFunction p) with (is_function_node n).
  destruct (is_function_node n); cbn [bind].
  { intros [= <-]. now rewrite Z.mul_0_r, Z.add_0_r. }
  rewrite enter_call_shift.
  destruct (enter_call fn p c) as [c1|m]; cbn [bind]; [|discriminate].
  rewrite enter_jump_shift, enter_control_shift.
  set (c2 := enter_control p (enter_jump p c1)).
  destruct (score_visit_all fn (Some p) (children n) c2) as [c3|m] eqn:Hkids;
    cbn [bind]; [|discriminate].
  intros [= <-].
  assert (Hall : forall a0,
             score_visit_all fn (Some p) (children n) (shift a0 d c2)
             = Ok (shift (a0 + d * nesting_weight_all (children n)) d c3)).
  { revert Hkids. generalize c2 as s. unfold nesting_weight_all.
    induction IH as [|[k' ch] cs IHch _ IHcs]; intros s Hs a0.
    - rewrite score_visit_all_nil in *. injection Hs as <-.
      cbn [fold_right]. now rewrite Z.mul_0_r, Z.add_0_r.
    - rewrite score_visit_all_cons in *.
      destruct (score_visit fn (Some p) k' ch s) as [s1|m] eqn:Hch;
        cbn [bind] in Hs; [|discriminate].
      cbn [snd] in IHch.
      rewrite (IHch (Some p) k' a0 d s s1 Hch). cbn [bind].
      rewrite (IHcs s1 Hs). cbn [fold_right snd]. do 2 f_equal. ring. }
  rewrite Hall. cbn [bind]. rewrite score_exit_shift. do 2 f_equal.
  change (node p) with n. ring.
Qed.

Lemma score_visit_all_shift fn parent cs :
  forall a d c c',
    score_visit_all fn parent cs c = Ok c' ->
    score_visit_all fn parent cs (shift a d c)
    = Ok (shift (a + d * nesting_weight_all cs) d c').
Proof.
  unfold nesting_weight_all.
  induction cs as [|[k ch] cs IH]; intros a d c c' H.
  - rewrite score_visit_all_nil in *. injection H as <-.
    cbn [fold_right]. now rewrite Z.mul_0_r, Z.add_0_r.
  - rewrite score_visit_all_cons in *.
    destruct (score_visit fn parent k ch c) as [c1|m] eqn:Hch;
      cbn [bind] in H; [|discriminate].
    rewrite (score_visit_shift fn ch parent k a d c c1 Hch). cbn [bind].
    rewrite (IH _ d c1 c' H). cbn [fold_right snd]. do 2 f_equal. ring.
Qed.

(** X3. The seed enters the score linearly: starting a function [d]
    levels deeper adds [d] for every structural node of its subtree (If,
    else-if included, loop, Catch, ternary; nested functions apart) and
    changes nothing else. *)
Theorem X3_score_is_linear_in_the_seed funcPath baseNesting d fn cc :
  calculateCognitiveComplexity funcPath baseNesting fn = Ok cc ->
  calculateCognitiveComplexity funcPath (baseNesting + d) fn
  = Ok (cc + d * nesting_weight_all (children (node funcPath))).
Proof.
  unfold calculateCognitiveComplexity, traverseNode.
  fold (score_visit_all fn).
  destruct (score_visit_all fn (Some funcPath) (children (node funcPath))
              (mkCounters 0 baseNesting)) as [c|m] eqn:H; cbn [bind];
    [|discriminate].
  intros [= <-].
  change (mkCounters 0 (baseNesting + d))
    with (shift 0 d (mkCounters 0 baseNesting)).
  rewrite (score_visit_all_shift fn _ _ 0 d _ c H). cbn [bind].
  unfold shift. cbn [complexity]. f_equal.
Qed.

Lemma X3_witness_nested_if :
  calculateCognitiveComplexity
    (function_with "f" (nested_if "x" "y") (Index "body" 0) None) 0 None
  = Ok 3
  /\ calculateCognitiveComplexity
       (function_with "f" (nested_if "x" "y") (Index "body" 0) None) (0 + 5)
       None
     = Ok (3 + 5 * 2).
Proof.
  split; [reflexivity|].
  apply (X3_score_is_linear_in_the_seed
           (function_with "f" (nested_if "x" "y") (Index "body" 0) None)
           0 5 None 3).
  reflexivity.
Defined.

(** ** Loop nests *)

Ltac score_walk :=
  repeat (progress
            (rewrite ?score_visit_all_cons, ?score_visit_all_nil,
               ?visit_identifier, ?visit_empty_block; cbn [bind])).

Lemma triangular_closed n : 2 * triangular n = Z.of_nat n * (Z.of_nat n - 1).
Proof.
  induction n as [|n IH]; [reflexivity|].
  cbn [triangular]. rewrite Nat2Z.inj_succ. lia.
Qed.

(** A block holding a nest of [n] loops, visited at [nesting = ns]: loop
    number [i] from the outside is charged [1 + ns + i]. *)
Lemma visit_loop_nest fn x n :
  forall parent k c,
    score_visit fn parent k (loop_nest x n) c
    = Ok (mkCounters
            (complexity c + Z.of_nat n * (1 + nesting c) + triangular n)
            (nesting c)).
Proof.
  induction n as [|n IH]; intros parent k c.
  - rewrite visit_empty_block. f_equal. apply counters_eq; cbn; lia.
  - cbn [loop_nest]. rewrite score_visit_eq.
    set (bp := mkPath _ k parent).
    change (score_enter fn bp c) with (Ok (c, false)). cbn [bind].
    cbn [BlockStatement node_of children items items_from].
    rewrite score_visit_all_cons, score_visit_eq.
    set (wp := mkPath _ (Index "body" 0) (Some bp)).
    change (score_enter fn wp c)
      with (Ok (incNesting (addStructural c), false)).
    cbn [bind WhileStatement node_of children].
    score_walk. rewrite IH. score_walk.
    change (score_exit wp ?s) with (decNesting s).
    change (score_exit bp ?s) with s.
    f_equal. apply counters_eq; counters; cbn [triangular];
      rewrite ?Nat2Z.inj_succ; lia.
Qed.

(** X5. Nesting compounds: a function whose body is a nest of [n] while
    loops scores [n * (1 + seed) + (0 + 1 + ... + (n - 1))], so twice the
    score at seed 0 is [n * (n + 1)]. *)
Theorem X5_loop_nest_scores_triangular :
  (forall fn f x n k parent baseNesting,
      calculateCognitiveComplexity
        (function_of_block f (loop_nest x n) k parent) baseNesting fn
      = Ok (Z.of_nat n * (1 + baseNesting) + triangular n))
  /\ (forall n, 2 * (Z.of_nat n * (1 + 0) + triangular n)
                = Z.of_nat n * (Z.of_nat n + 1)).
Proof.
  split.
  - intros. unfold calculateCognitiveComplexity, traverseNode, function_of_block.
    fold (score_visit_all fn).
    cbn [node FunctionDeclaration node_of children items items_from app].
    rewrite score_visit_all_cons, visit_identifier. cbn [bind].
    rewrite score_visit_all_cons, visit_loop_nest. cbn [bind].
    rewrite score_visit_all_nil. cbn [bind complexity nesting].
    f_equal.
  - intros n. pose proof (triangular_closed n). lia.
Qed.

(** ** Recursion is seen by name *)

(** X6. The recursion rule compares names only: a function whose body is
    the one call [callee()] scores 1 exactly when the name handed to the
    scorer is not empty and equals [callee], and 0 otherwise; with no name
    handed over ([null]) no call is ever charged. *)
Theorem X6_recursion_is_by_name :
  (forall f callee g k parent baseNesting,
      calculateCognitiveComplexity
        (function_with f
           (ExpressionStatement (CallExpression (Identifier callee) []))
           k parent) baseNesting (Some g)
      = Ok (if String.eqb callee g && negb (String.eqb g "") then 1 else 0))
  /\ (forall f callee k parent baseNesting,
         calculateCognitiveComplexity
           (function_with f
              (ExpressionStatement (CallExpression (Identifier callee) []))
              k parent) baseNesting None
         = Ok 0).
Proof.
  split.
  - intros f callee g k parent baseNesting.
    unfold calculateCognitiveComplexity, traverseNode, function_with.
    fold (score_visit_all (Some g)).
    cbn [node FunctionDeclaration node_of children items items_from app].
    rewrite score_visit_all_cons, visit_identifier. cbn [bind].
    rewrite score_visit_all_cons, score_visit_eq.
    set (fp := mkPath _ k parent).
    set (bp := mkPath _ (Field "body") (Some fp)).
    change (score_enter (Some g) bp ?c) with (Ok (c, false)).
    cbn [bind BlockStatement node_of children items items_from].
    rewrite score_visit_all_cons, score_visit_eq.
    set (sp := mkPath _ (Index "body" 0) (Some bp)).
    change (score_enter (Some g) sp ?c) with (Ok (c, false)).
    cbn [bind ExpressionStatement node_of children].
    rewrite score_visit_all_cons, score_visit_eq.
    set (cp := mkPath _ (Field "expression") (Some sp)).
    assert (He : score_enter (Some g) cp (mkCounters 0 baseNesting)
                 = Ok (mkCounters
                         (if String.eqb callee g && negb (String.eqb g "")
                          then 1 else 0) baseNesting, false)).
    { unfold score_enter, enter_call.
      change (isFunction cp) with false. cbv iota.
      change (isCallExpression cp) with true.
      change (get_required (node cp) "callee") with (Ok (Identifier callee)).
      change (enter_jump cp ?c) with c.
      change (enter_control cp ?c) with c.
      destruct g as [|a g']; cbn [truthy andb bind].
      - rewrite andb_false_r. reflexivity.
      - cbn [Identifier type name opt_eqb String.eqb Ascii.eqb Bool.eqb andb].
        change (String.eqb (String a g') "") with false. cbn [negb].
        rewrite andb_true_r.
        destruct (String.eqb callee (String a g')); reflexivity. }
    rewrite He. cbn [bind CallExpression node_of children items items_from].
    score_walk.
    change (score_exit cp ?c) with c.
    change (score_exit sp ?c) with c.
    change (score_exit bp ?c) with c.
    reflexivity.
  - intros. vm_compute. reflexivity.
Qed.

(** ** Nested functions are not scored *)

Lemma strip_nested_eq n :
  strip_nested n =
    mkNode (type n) (name n) (operator n) (start n) (end_ n) (loc n)
      (if is_function_node n then [] else strip_children (children n)).
Proof.
  destruct n as [ty nm op st en lc cs]. cbn [strip_nested].
  unfold is_function_node. cbn [type].
  destruct (existsb (String.eqb ty) function_types); reflexivity.
Qed.

Lemma strip_nested_type n : type (strip_nested n) = type n.
Proof. now rewrite strip_nested_eq. Qed.

Lemma strip_nested_name n : name (strip_nested n) = name n.
Proof. now rewrite strip_nested_eq. Qed.

Lemma lookup_field_strip f cs :
  lookup_field f (strip_children cs)
  = option_map strip_nested (lookup_field f cs).
Proof.
  unfold strip_children.
  induction cs as [|[k c] cs IH]; cbn [map lookup_field fst snd];
    [reflexivity|].
  destruct (key_is k f); [reflexivity | exact IH].
Qed.

Lemma alike_test t p q :
  alike p q -> opt_is (has_type t) p = opt_is (has_type t) q.
Proof.
  unfold alike, has_type.
  destruct p as [p|], q as [q|]; cbn; intros [=]; congruence.
Qed.

Lemma alike_operator k k' n n' p q :
  alike p q ->
  parent_operator (mkPath n k p) = parent_operator (mkPath n' k' q).
Proof.
  unfold alike, parent_operator.
  destruct p as [p|], q as [q|]; cbn; intros [=]; congruence.
Qed.

(** The visitor does the same on a node and on its emptied copy. *)
Lemma score_enter_strip fn n k parent parent' c :
  is_function_node n = false ->
  alike parent parent' ->
  score_enter fn (mkPath (strip_nested n) k parent') c
  = score_enter fn (mkPath n k parent) c
  /\ score_exit (mkPath (strip_nested n) k parent') c
     = score_exit (mkPath n k parent) c.
Proof.
  intros Hf Hp.
  pose proof (alike_test "IfStatement" _ _ Hp) as Hif.
  pose proof (alike_test "LogicalExpression" _ _ Hp) as Hlog.
  pose proof (alike_operator k k n (strip_nested n) _ _ Hp) as Hop.
  rewrite strip_nested_eq, Hf in *.
  unfold score_enter, score_exit, enter_call, enter_jump, enter_control,
    isElseIf, isFunction, get_required, get.
  unfold_tests.
  cbn [node type operator children key parentPath].
  rewrite !lookup_field_strip, <- Hif, <- Hlog, <- Hop.
  destruct (lookup_field "callee" (children n)) as [callee|];
    destruct (lookup_field "label" (children n)) as [label|];
    destruct (lookup_field "alternate" (children n)) as [alt|];
    cbn [option_map bind is_some];
    rewrite ?strip_nested_type, ?strip_nested_name; split; reflexivity.
Qed.

Lemma score_visit_strip fn n :
  forall parent parent' k c,
    alike parent parent' ->
    score_visit fn parent' k (strip_nested n) c = score_visit fn parent k n c.
Proof.
  induction n as [n IH] using Node_induction.
  intros parent parent' k c Hp. rewrite !score_visit_eq.
  destruct (is_function_node n) eqn:Hf.
  - unfold score_enter, isFunction. cbn [node].
    rewrite strip_nested_type.
    change (existsb (String.eqb (type n)) function_types)
      with (is_function_node n).
    rewrite Hf. reflexivity.
  - destruct (score_enter_strip fn n k parent parent' c Hf Hp) as [-> _].
    destruct (score_enter fn (mkPath n k parent) c) as [[c1 skipped]|m];
      cbn [bind]; [|reflexivity].
    destruct skipped; [reflexivity|].
    assert (Hkids :
             score_visit_all fn (Some (mkPath (strip_nested n) k parent'))
               (children (strip_nested n)) c1
             = score_visit_all fn (Some (mkPath n k parent)) (children n) c1).
    { assert (Ha : alike (Some (mkPath n k parent))
                     (Some (mkPath (strip_nested n) k parent'))).
      { unfold alike. cbn. now rewrite strip_nested_eq. }
      revert Ha.
      generalize (Some (mkPath (strip_nested n) k parent')) as q.
      generalize (Some (mkPath n k parent)) as p.
      rewrite strip_nested_eq, Hf. cbn [children]. unfold strip_children.
      generalize c1.
      induction IH as [|[k' ch] cs IHch _ IHcs]; intros s p q Ha;
        cbn [map fst snd]; [reflexivity|].
      rewrite !score_visit_all_cons. cbn [snd] in IHch.
      rewrite (IHch p q k' s Ha).
      destruct (score_visit fn p k' ch s); cbn [bind]; [|reflexivity].
      apply IHcs, Ha. }
    rewrite Hkids.
    destruct (score_visit_all fn _ (children n) c1) as [c2|m]; cbn [bind];
      [|reflexivity].
    destruct (score_enter_strip fn n k parent parent' c2 Hf Hp) as [_ ->].
    reflexivity.
Qed.

(** X4. The score of a function does not depend on what the functions
    nested in it hold: emptying every nested function leaves the score,
    or the error thrown, as it is. *)
Theorem X4_nested_function_bodies_do_not_count funcPath baseNesting fn :
  calculateCognitiveComplexity (strip_nested_functions funcPath) baseNesting fn
  = calculateCognitiveComplexity funcPath baseNesting fn.
Proof.
  unfold calculateCognitiveComplexity, traverseNode, strip_nested_functions.
  fold (score_visit_all fn). cbv zeta. cbn [node children].
  f_equal.
  assert (Ha : alike (Some funcPath)
                 (Some (mkPath
                          (mkNode (type (node funcPath)) (name (node funcPath))
                             (operator (node funcPath)) (start (node funcPath))
                             (end_ (node funcPath)) (loc (node funcPath))
                             (strip_children (children (node funcPath))))
                          (key funcPath) (parentPath funcPath))))
    by reflexivity.
  revert Ha. generalize (mkCounters 0 baseNesting) as c.
  match goal with |- forall c, alike ?p ?q -> _ =>
    generalize q as q'; generalize p as p' end.
  unfold strip_children.
  induction (children (node funcPath)) as [|[k ch] cs IH]; intros p q c Ha;
    cbn [map fst snd]; [reflexivity|].
  rewrite !score_visit_all_cons, (score_visit_strip fn ch p q k c Ha).
  destruct (score_visit fn p k ch c); cbn [bind]; [|reflexivity].
  apply IH, Ha.
Qed.

(** * Further properties of the collector *)

Lemma function_paths_from_eq parent k n :
  function_paths_from parent k n
  = ((if isFunction (mkPath n k parent) then [mkPath n k parent] else [])
       ++ function_paths_all (Some (mkPath n k parent)) (children n))%list.
Proof. destruct n; reflexivity. Qed.

(** What one visit of the collector appends. *)
Lemma collect_visit_records code n :
  forall parent k m m',
    visit (collect_enter code) (fun _ m => m) parent k n m = Ok m' ->
    exists rs,
      functions m' = (functions m ++ rs)%list
      /\ NOF m' = NOF m + Z.of_nat (List.length rs)
      /\ LOC m' = LOC m /\ NLOC m' = NLOC m
      /\ Forall2 (records code) (function_paths_from parent k n) rs.
Proof.
  induction n as [n IH] using Node_induction.
  intros parent k m m'. rewrite visit_eq, function_paths_from_eq. cbv zeta.
  set (p := mkPath n k parent).
  assert (Hkids : forall s s',
             visit_all (collect_enter code) (fun _ m => m) (Some p)
               (children n) s = Ok s' ->
             exists rs,
               functions s' = (functions s ++ rs)%list
               /\ NOF s' = NOF s + Z.of_nat (List.length rs)
               /\ LOC s' = LOC s /\ NLOC s' = NLOC s
               /\ Forall2 (records code)
                    (function_paths_all (Some p) (children n)) rs).
  { generalize (Some p) as pp. unfold function_paths_all.
    induction IH as [|[k' ch] cs IHch _ IHcs]; intros pp s s';
      cbn [visit_all flat_map fst snd].
    - intros [= <-]. exists []. rewrite app_nil_r. cbn.
      repeat split; try lia. constructor.
    - destruct (visit _ _ pp k' ch s) as [s1|msg] eqn:Hch; cbn [bind];
        [|discriminate].
      intros Hrest. cbn [snd] in IHch.
      apply IHch in Hch as (r1 & F1 & N1 & L1 & NL1 & R1).
      apply IHcs in Hrest as (r2 & F2 & N2 & L2 & NL2 & R2).
      exists (r1 ++ r2)%list.
      rewrite F2, F1, app_assoc, N2, N1, length_app, Nat2Z.inj_add.
      repeat split; try lia; try congruence.
      apply Forall2_app; assumption. }
  unfold collect_enter at 1.
  destruct (isFunction p); cbn [negb bind].
  - destruct (resolveName p) as [fn|msg] eqn:Hname; cbn [bind]; [|discriminate].
    destruct (calculateCognitiveComplexity p (baseNestingOf p) fn)
      as [cc|msg] eqn:Hcc; cbn [bind]; [|discriminate].
    destruct (visit_all _ _ (Some p) (children n) _) as [s2|msg] eqn:Hv;
      cbn [bind]; [|discriminate].
    intros [= <-].
    apply Hkids in Hv as (rs & F & N & L & NL & R).
    cbn [functions NOF LOC NLOC] in *.
    eexists (_ :: rs). rewrite F, <- app_assoc. cbn [app List.length].
    repeat split; try assumption; try lia.
    constructor; [|exact R].
    unfold records, lineOf. cbn [f_name f_CC f_NLOC f_lineStart f_lineEnd].
    repeat split; assumption.
  - destruct (visit_all _ _ (Some p) (children n) m) as [s2|msg] eqn:Hv;
      cbn [bind]; [|discriminate].
    intros [= <-]. cbn [app]. apply Hkids, Hv.
Qed.

Lemma calculateMetrics_records parse crawl code ast m :
  parse code = Ok ast ->
  calculateMetrics parse crawl code = Ok m ->
  Forall2 (records code) (function_paths ast) (functions m)
  /\ NOF m = Z.of_nat (List.length (functions m))
  /\ List.length (functions m) = List.length (function_paths ast)
  /\ LOC m = count_lines code
  /\ NLOC m = count_nonblank_lines code.
Proof.
  unfold calculateMetrics, traverse, function_paths. intros -> H.
  cbn [bind] in H.
  assert (G : forall pp cs s s',
             visit_all (collect_enter code) (fun _ m => m) pp cs s = Ok s' ->
             exists rs,
               functions s' = (functions s ++ rs)%list
               /\ NOF s' = NOF s + Z.of_nat (List.length rs)
               /\ LOC s' = LOC s /\ NLOC s' = NLOC s
               /\ Forall2 (records code) (function_paths_all pp cs) rs).
  { unfold function_paths_all.
    induction cs as [|[k ch] cs IH]; intros s s';
      cbn [visit_all flat_map fst snd].
    - intros [= <-]. exists []. rewrite app_nil_r. cbn.
      repeat split; try lia. constructor.
    - destruct (visit _ _ pp k ch s) as [s1|msg] eqn:Hch; cbn [bind];
        [|discriminate].
      intros Hrest.
      apply collect_visit_records in Hch as (r1 & F1 & N1 & L1 & NL1 & R1).
      apply IH in Hrest as (r2 & F2 & N2 & L2 & NL2 & R2).
      exists (r1 ++ r2)%list.
      rewrite F2, F1, app_assoc, N2, N1, length_app, Nat2Z.inj_add.
      repeat split; try lia; try congruence.
      apply Forall2_app; assumption. }
  destruct (crawl ast) as [_|message]; [|discriminate].
  apply G in H as (rs & F & N & L & NL & R).
  cbn [functions NOF LOC NLOC app] in *. subst rs.
  repeat split; try assumption.
  symmetry. apply (Forall2_length R).
Qed.

(** X7. What [calculateMetrics] returns for a file that parses: one
    record for every function node of the tree, nested functions
    included, in pre-order; each record holds the resolved name of its
    function, the score of that function alone from its own base nesting,
    its non-blank line count and its lines; [NOF] is the number of
    records; and [LOC] and [NLOC] are the line counts of the whole
    source. *)
Theorem X7_one_record_per_function_in_preorder parse crawl code ast m :
  parse code = Ok ast ->
  calculateMetrics parse crawl code = Ok m ->
  Forall2 (records code) (function_paths ast) (functions m)
  /\ NOF m = Z.of_nat (List.length (functions m))
  /\ List.length (functions m) = List.length (function_paths ast)
  /\ LOC m = count_lines code
  /\ NLOC m = count_nonblank_lines code.
Proof. apply calculateMetrics_records. Qed.

Lemma X7_witness_two_functions :
  Forall2 (records two_functions_source) (function_paths two_functions)
    [mkFunctionRecord (Some "f") 1 1 None None;
     mkFunctionRecord (Some "g") 1 0 None None]
  /\ 2 = Z.of_nat 2
  /\ 2%nat = List.length (function_paths two_functions)
  /\ 1 = count_lines two_functions_source
  /\ 1 = count_nonblank_lines two_functions_source.
Proof.
  apply (X7_one_record_per_function_in_preorder
           (table_parse [(two_functions_source, two_functions)]) accepts
           two_functions_source two_functions
           (mkMetrics 1 1 2
              [mkFunctionRecord (Some "f") 1 1 None None;
               mkFunctionRecord (Some "g") 1 0 None None]));
    reflexivity.
Defined.

Lemma count_ancestors_eq :
  forall curr b,
    count_ancestors curr b
    = b + Z.of_nat (List.length (filter opens_nesting (path_and_ancestors curr))).
Proof.
  fix IH 1. intros [n k up] b. cbn [count_ancestors path_and_ancestors filter].
  destruct (opens_nesting (mkPath n k up)); cbn [List.length];
    destruct up as [next|]; rewrite ?IH; cbn [filter List.length]; lia.
Qed.

(** The test of the ancestor loop picks the level kinds. *)
Lemma opens_nesting_level q : opens_nesting q = is_level q.
Proof.
  unfold opens_nesting, is_level, level_types, isFunction, function_types,
    isIfStatement, isForStatement, isForInStatement, isForOfStatement,
    isWhileStatement, isDoWhileStatement, isSwitchStatement, isCatchClause,
    has_type.
  cbn [existsb]. rewrite !orb_false_r, !orb_assoc. reflexivity.
Qed.

(** X8. The base nesting of a function is the number of its strict
    ancestors whose kind is a function kind, If, one of the five loops,
    Switch or Catch, an If in an else-if position included; ancestors of
    any other kind add nothing. In particular it is never negative. *)
Theorem X8_base_nesting_counts_ancestors p :
  baseNestingOf p = Z.of_nat (List.length (filter is_level (ancestors p)))
  /\ 0 <= baseNestingOf p.
Proof.
  assert (H : baseNestingOf p
              = Z.of_nat (List.length (filter is_level (ancestors p)))).
  { rewrite <- (filter_ext _ _ opens_nesting_level).
    unfold baseNestingOf, ancestors.
    destruct (parentPath p) as [q|]; [|reflexivity].
    now rewrite count_ancestors_eq. }
  split; [exact H | lia].
Qed.

(** * Further properties of the text helpers *)

Lemma split_lines_not_nil s : split_lines s <> [].
Proof.
  destruct s as [|c s]; cbn [split_lines]; [discriminate|].
  destruct (Ascii.eqb c "010"); [discriminate|].
  destruct (split_lines s); discriminate.
Qed.

Lemma join_split s : join_lines (split_lines s) = s.
Proof.
  unfold join_lines.
  induction s as [|c s IH]; cbn [split_lines]; [reflexivity|].
  destruct (Ascii.eqb_spec c "010") as [->|Hc].
  - pose proof (split_lines_not_nil s) as Hne.
    destruct (split_lines s) as [|l ls]; [congruence|].
    cbn [String.concat] in *. rewrite IH. reflexivity.
  - pose proof (split_lines_not_nil s) as Hne.
    destruct (split_lines s) as [|l ls]; [congruence|].
    cbn [String.concat] in *. destruct ls as [|l' ls].
    + now rewrite IH.
    + cbn [append]. now rewrite IH.
Qed.

Lemma split_lines_length s : List.length (split_lines s) = S (count_LF s).
Proof.
  induction s as [|c s IH]; cbn [split_lines count_LF]; [reflexivity|].
  destruct (Ascii.eqb c "010"); cbn [List.length Nat.add].
  - now rewrite IH.
  - pose proof (split_lines_not_nil s) as Hne.
    destruct (split_lines s) as [|l ls]; [congruence|].
    cbn [List.length] in *. exact IH.
Qed.

(** X9. Line counting: [split('\n')] followed by [join('\n')] gives the
    text back; [LOC] is one more than the number of line feeds, so at
    least 1 (the empty text has [LOC = 1] and [NLOC = 0]); and [NLOC] is
    never negative and never more than [LOC]. *)
Theorem X9_line_counts :
  (forall text, join_lines (split_lines text) = text)
  /\ (forall text, count_lines text = 1 + Z.of_nat (count_LF text))
  /\ (forall text, 0 <= count_nonblank_lines text <= count_lines text)
  /\ count_lines "" = 1 /\ count_nonblank_lines "" = 0.
Proof.
  split; [exact join_split|]. split; [|split; [|split; reflexivity]].
  - intros text. unfold count_lines. rewrite split_lines_length. lia.
  - intros text. unfold count_nonblank_lines, count_lines.
    pose proof (filter_length_le trim_truthy (split_lines text)). lia.
Qed.

(** * Further properties of the archive helpers *)

Lemma first_segment_no_slash s : includes_slash (first_segment s) = false.
Proof.
  induction s as [|c s IH]; cbn [first_segment]; [reflexivity|].
  destruct (is_slash c) eqn:E; [reflexivity|].
  cbn [includes_slash]. now rewrite E, IH.
Qed.

Lemma first_segment_whole s :
  includes_slash s = false -> first_segment s = s.
Proof.
  induction s as [|c s IH]; cbn [first_segment includes_slash]; [reflexivity|].
  destruct (is_slash c); cbn [orb]; [discriminate|].
  intros H. now rewrite IH.
Qed.

(** X10. The first segment [topLevelName] returns never holds a ['/'];
    a name with no ['/'] at all is its own first segment; a leading [./]
    (with any further slashes) is not part of it; and a name that starts
    with ['/'] has the empty first segment. *)
Theorem X10_topLevelName_is_one_segment :
  (forall entryName, includes_slash (topLevelName entryName) = false)
  /\ (forall entryName,
         includes_slash entryName = false ->
         topLevelName entryName = entryName)
  /\ (forall rest,
         topLevelName ("./" ++ rest) = first_segment (drop_slashes rest))
  /\ (forall rest, topLevelName ("/" ++ rest) = "").
Proof.
  split; [|split; [|split]].
  - intros. apply first_segment_no_slash.
  - intros s H. unfold topLevelName.
    assert (Hs : strip_dot_slash s = s).
    { destruct s as [|c1 [|c2 s]]; cbn [strip_dot_slash]; try reflexivity.
      cbn [includes_slash] in H.
      apply orb_false_iff in H as [_ H]. apply orb_false_iff in H as [H _].
      rewrite H, andb_false_r. reflexivity. }
    rewrite Hs. apply first_segment_whole, H.
  - intros. reflexivity.
  - intros [|c rest]; reflexivity.
Qed.

Lemma X10_witness_plain_name :
  includes_slash "README" = false /\ topLevelName "README" = "README".
Proof.
  split; [reflexivity|].
  apply (proj1 (proj2 X10_topLevelName_is_one_segment) "README").
  reflexivity.
Defined.

(** ** Root detection, in full *)

Lemma considered_In entries e :
  In e (considered entries) <-> In e entries /\ counted e = true.
Proof. apply filter_In. Qed.

(** When a root is detected, and which. *)
Lemma detect_some_iff entries r :
  detectZipRootFolder entries = Some r
  <-> (exists e, In e (considered entries))
      /\ forall e, In e (considered entries) ->
                   includes_slash (entryName e) = true
                   /\ topLevelName (entryName e) = r.
Proof.
  destruct (detectZipRootFolder_eq entries) as (counts & Hk & Hnd & ->).
  split.
  - destruct (some_top_level_file entries) eqn:Hflag; [discriminate|].
    rewrite Map_size_keys.
    destruct (Map_keys counts) as [|k [|k' ks]] eqn:Hkeys; cbn; try discriminate.
    intros [= ->].
    assert (Htops : forall t, In t (top_levels entries) -> t = r).
    { intros t Ht. apply Hk in Ht. destruct Ht as [<-|[]]. reflexivity. }
    split.
    + assert (Hin : In r (top_levels entries))
        by (apply Hk; left; reflexivity).
      unfold top_levels in Hin. apply in_map_iff in Hin as (e & _ & He).
      exists e. exact He.
    + intros e He. split.
      * unfold some_top_level_file in Hflag.
        destruct (includes_slash (entryName e)) eqn:Hs; [reflexivity|].
        assert (existsb (fun e => negb (includes_slash (entryName e)))
                  (considered entries) = true)
          by (apply existsb_exists; exists e; rewrite Hs; auto).
        congruence.
      * apply Htops. unfold top_levels. apply in_map_iff. eauto.
  - intros [(e0 & He0) Hall].
    replace (some_top_level_file entries) with false.
    + assert (Hkeys : Map_keys counts = [r]).
      { apply NoDup_all_equal; [exact Hnd| |].
        - intros k Hin. apply Hk in Hin. unfold top_levels in Hin.
          apply in_map_iff in Hin as (e & <- & He). apply Hall, He.
        - apply Hk. unfold top_levels. apply in_map_iff.
          exists e0. split; [apply Hall, He0 | exact He0]. }
      rewrite Map_size_keys, Hkeys. reflexivity.
    + symmetry. apply not_true_is_false. intros Hex.
      apply existsb_exists in Hex as (e & He & Hno).
      apply Hall in He as [Hs _]. rewrite Hs in Hno. discriminate.
Qed.

Lemma option_eq_by_some {A : Type} (a b : option A) :
  (forall x, a = Some x <-> b = Some x) -> a = b.
Proof.
  intros H. destruct a as [x|].
  - symmetry. apply H. reflexivity.
  - destruct b as [y|]; [|reflexivity]. apply H. reflexivity.
Qed.

(** X11. Root detection answers [r] exactly when at least one entry is
    counted (a non-directory entry whose first segment is neither empty
    nor [__MACOSX]) and every counted entry has a ['/'] in its stored name
    and [r] as its first segment. A detected root is therefore never
    empty, never [__MACOSX] and never holds a ['/']; and an archive with
    no counted entry has no root. *)
Theorem X11_detected_root_characterised :
  (forall entries r,
      detectZipRootFolder entries = Some r
      <-> (exists e, In e (considered entries))
          /\ forall e, In e (considered entries) ->
                       includes_slash (entryName e) = true
                       /\ topLevelName (entryName e) = r)
  /\ (forall entries r,
         detectZipRootFolder entries = Some r ->
         r <> "" /\ r <> "__MACOSX" /\ includes_slash r = false)
  /\ (forall entries,
         considered entries = [] -> detectZipRootFolder entries = None).
Proof.
  split; [exact detect_some_iff|]. split.
  - intros entries r H. apply detect_some_iff in H as [(e & He) Hall].
    destruct (Hall e He) as [_ <-].
    apply considered_In in He as [_ Hc]. unfold counted in Hc.
    apply andb_true_iff in Hc as [Hc Hm]. apply andb_true_iff in Hc as [_ Ht].
    apply negb_true_iff in Hm, Ht.
    split; [|split].
    + intros E. rewrite E in Ht. discriminate.
    + intros E. rewrite E in Hm. discriminate.
    + apply first_segment_no_slash.
  - intros entries Hnone.
    destruct (detectZipRootFolder entries) as [r|] eqn:H; [|reflexivity].
    apply detect_some_iff in H as [(e & He) _].
    rewrite Hnone in He. destruct He.
Qed.

Lemma X11_witness_root :
  detectZipRootFolder (files ["proj/a.js"; "proj/b/c.ts"]) = Some "proj"
  /\ ("proj" <> "" /\ "proj" <> "__MACOSX" /\ includes_slash "proj" = false)
  /\ detectZipRootFolder [mkEntry "proj/" true; mkEntry "__MACOSX/x" false]
     = None.
Proof.
  split; [reflexivity|]. split.
  - apply (proj1 (proj2 X11_detected_root_characterised)
             (files ["proj/a.js"; "proj/b/c.ts"])).
    reflexivity.
  - apply (proj2 (proj2 X11_detected_root_characterised)).
    reflexivity.
Defined.

(** X12. Entries the loop does not count never matter: dropping the
    directory entries, the entries with an empty name or an empty first
    segment and the [__MACOSX] entries from an archive leaves the detected
    root as it is; and so does any reordering of the entries. *)
Theorem X12_detection_ignores_noise_and_order :
  (forall entries,
      detectZipRootFolder (considered entries) = detectZipRootFolder entries)
  /\ (forall entries entries',
         (forall e, In e entries <-> In e entries') ->
         detectZipRootFolder entries = detectZipRootFolder entries').
Proof.
  assert (G : forall entries entries',
             (forall e, In e (considered entries)
                        <-> In e (considered entries')) ->
             detectZipRootFolder entries = detectZipRootFolder entries').
  { intros entries entries' H. apply option_eq_by_some. intros r.
    rewrite !detect_some_iff. split; intros [(e & He) Hall]; split.
    - exists e. apply H, He.
    - intros e' He'. apply Hall, H, He'.
    - exists e. apply H, He.
    - intros e' He'. apply Hall, H, He'. }
  split.
  - intros entries. apply G. intros e.
    rewrite !considered_In. tauto.
  - intros entries entries' H. apply G. intros e.
    rewrite !considered_In, H. tauto.
Qed.

Lemma X12_witness_reordered :
  detectZipRootFolder (files ["a/x.js"; "a/y.js"; "a/x.js"])
  = detectZipRootFolder (files ["a/y.js"; "a/x.js"]).
Proof.
  apply (proj2 X12_detection_ignores_noise_and_order).
  intros e. cbn. tauto.
Defined.

(** * Further properties of the directory walk *)

Lemma string_length_append a b :
  String.length (a ++ b) = (String.length a + String.length b)%nat.
Proof. induction a as [|c a IH]; cbn; [reflexivity | now rewrite IH]. Qed.

Lemma substring_whole s : substring 0 (String.length s) s = s.
Proof. induction s as [|c s IH]; cbn; [reflexivity | now rewrite IH]. Qed.

Lemma substring_after a b :
  substring (String.length a) (String.length b) (a ++ b) = b.
Proof. induction a as [|c a IH]; cbn; [apply substring_whole | exact IH]. Qed.

Lemma substring_split s :
  forall n, (n <= String.length s)%nat ->
            s = substring 0 n s ++ substring n (String.length s - n) s.
Proof.
  induction s as [|c s IH]; intros [|n] Hn; cbn in *;
    try reflexivity; try lia.
  - now rewrite substring_whole.
  - f_equal. apply IH. lia.
Qed.

(** [s.endsWith(suffix)] holds exactly of the strings that end in it. *)
Lemma endsWith_iff s suffix :
  endsWith s suffix = true <-> exists stem, s = stem ++ suffix.
Proof.
  unfold endsWith. split.
  - intros H. apply andb_true_iff in H as [Hlen Heq].
    apply Nat.leb_le in Hlen. apply String.eqb_eq in Heq.
    exists (substring 0 (String.length s - String.length suffix) s).
    rewrite (substring_split s (String.length s - String.length suffix))
      at 1 by lia.
    f_equal.
    replace (String.length s - (String.length s - String.length suffix))%nat
      with (String.length suffix) by lia.
    exact Heq.
  - intros [stem ->]. rewrite string_length_append.
    apply andb_true_iff. split; [apply Nat.leb_le; lia|].
    replace (String.length stem + String.length suffix - String.length suffix)%nat
      with (String.length stem) by lia.
    rewrite substring_after. apply String.eqb_refl.
Qed.

(** [s.startsWith(prefix)] holds exactly of the strings that start with it. *)
Lemma startsWith_iff s pre :
  startsWith s pre = true <-> exists rest, s = pre ++ rest.
Proof.
  unfold startsWith. revert s.
  induction pre as [|c pre IH]; intros s.
  - split; [intros _; exists s; reflexivity | destruct s; reflexivity].
  - destruct s as [|c' s]; cbn [String.prefix append].
    + split; [discriminate | intros [? [=]]].
    + destruct (Ascii.ascii_dec c c') as [<-|Hne].
      * rewrite IH. split; intros [rest H]; exists rest; congruence.
      * split; [discriminate | intros [rest H]; injection H as H _; congruence].
Qed.

Lemma isCodeFile_iff file : isCodeFile file = true <-> code_extension file.
Proof.
  unfold isCodeFile, code_extension. rewrite !orb_true_iff, !endsWith_iff.
  split.
  - intros [[[[s H]|[s H]]|[s H]]|[s H]]; exists s; tauto.
  - intros [s [H|[H|[H|H]]]]; eauto 6.
Qed.

Lemma ignored_folder_iff folder :
  ignored_folder folder = true <-> ignored_name folder.
Proof.
  unfold ignored_folder, ignored_name.
  rewrite !orb_true_iff, !String.eqb_eq, startsWith_iff. tauto.
Qed.

(** X13. Which names the walk takes and which it passes by: a file is
    analyzed exactly when its name ends in [.js], [.jsx], [.ts] or [.tsx];
    a folder is skipped exactly when it is called [node_modules], [dist]
    or [build] or its name starts with [.git] (so [.github] is skipped
    too). *)
Theorem X13_selected_files_and_skipped_folders :
  (forall file,
      isCodeFile file = true
      <-> exists stem,
          file = stem ++ ".js" \/ file = stem ++ ".jsx"
          \/ file = stem ++ ".ts" \/ file = stem ++ ".tsx")
  /\ (forall folder,
         ignored_folder folder = true
         <-> folder = "node_modules" \/ folder = "dist" \/ folder = "build"
             \/ exists rest, folder = ".git" ++ rest).
Proof. split; [exact isCodeFile_iff | exact ignored_folder_iff]. Qed.

Lemma relative_below root :
  forall rel, relative root (root ++ rel)%list = rel.
Proof.
  induction root as [|d root IH]; intros rel; cbn [relative app];
    [reflexivity|].
  rewrite String.eqb_refl. apply IH.
Qed.

Lemma file_at_incl entries entries' rel content :
  incl entries entries' ->
  file_at entries rel content -> file_at entries' rel content.
Proof.
  intros Hincl H. destruct H as [es file c Hin | es folder inner r c Hin Hsub].
  - apply file_here, Hincl, Hin.
  - apply (file_below _ folder inner); [apply Hincl, Hin | exact Hsub].
Qed.

Lemma code_files_below e :
  forall directory pc,
    In pc (code_files directory e) ->
    exists rel,
      fst pc = (directory ++ rel)%list
      /\ reportable rel
      /\ file_at [e] rel (snd pc).
Proof.
  induction e as [file content | file entries IH] using FsNode_induction;
    intros directory pc; cbn [code_files].
  - destruct (isCodeFile file) eqn:Hc; [|intros []].
    intros [<-|[]]. exists [file]. split; [reflexivity|]. split.
    + split; [discriminate|]. split; [|constructor].
      apply isCodeFile_iff, Hc.
    + cbn [snd]. apply file_here. left. reflexivity.
  - destruct (ignored_folder file) eqn:Hi; [intros []|].
    intros Hin. apply in_flat_map in Hin as (e & He & Hpc).
    rewrite Forall_forall in IH.
    destruct (IH e He _ _ Hpc) as (rel & Hfst & (Hne & Hcode & Hfolders) & Hat).
    exists (file :: rel). rewrite Hfst, <- app_assoc. split; [reflexivity|].
    split.
    + destruct rel as [|r rel]; [congruence|].
      split; [discriminate|]. split; [exact Hcode|].
      cbn [removelast] in *. constructor; [|assumption].
      rewrite <- ignored_folder_iff. congruence.
    + apply (file_below _ file entries); [left; reflexivity|].
      apply (file_at_incl [e]); [|exact Hat].
      intros x [<-|[]]. exact He.
Qed.

(** The segments of a file of a tree with slash-free names. *)
Lemma file_at_slash_free entries rel content :
  file_at entries rel content ->
  forallb names_slash_free entries = true ->
  rel <> [] /\ Forall (fun name => includes_slash name = false) rel.
Proof.
  induction 1 as [es file c Hin | es folder inner r c Hin Hsub IH];
    intros Hfree; rewrite forallb_forall in Hfree; apply Hfree in Hin;
    cbn [names_slash_free] in Hin.
  - apply negb_true_iff in Hin. split; [discriminate|].
    constructor; [exact Hin | constructor].
  - apply andb_true_iff in Hin as [Hname Hinner].
    apply negb_true_iff in Hname. destruct (IH Hinner) as [_ Hr].
    split; [discriminate|]. constructor; assumption.
Qed.

Lemma includes_slash_app a b :
  includes_slash (a ++ String "/" b) = true.
Proof.
  induction a as [|c a IH]; cbn [append includes_slash]; [reflexivity|].
  rewrite IH. apply orb_true_r.
Qed.

Lemma append_slash_inj a :
  forall a' b b',
    includes_slash a = false ->
    includes_slash a' = false ->
    (a ++ "/" ++ b = a' ++ "/" ++ b')%string ->
    a = a' /\ b = b'.
Proof.
  induction a as [|c a IH]; intros [|c' a'] b b' Ha Ha' H; cbn in *.
  - injection H as ->. auto.
  - injection H as <- _. discriminate.
  - injection H as -> _. discriminate.
  - injection H as -> H. apply orb_false_iff in Ha as [_ Ha].
    apply orb_false_iff in Ha' as [_ Ha'].
    destruct (IH a' b b' Ha Ha' H) as [-> ->]. auto.
Qed.

(** Joining slash-free segments with ['/'] loses nothing. *)
Lemma slashed_inj rel :
  forall rel',
    rel <> [] -> rel' <> [] ->
    Forall (fun name => includes_slash name = false) rel ->
    Forall (fun name => includes_slash name = false) rel' ->
    slashed rel = slashed rel' ->
    rel = rel'.
Proof.
  unfold slashed.
  induction rel as [|a rel IH]; intros [|a' rel'] Hne Hne' Hf Hf' H;
    try congruence.
  inversion Hf as [|? ? Ha Hrel]; subst.
  inversion Hf' as [|? ? Ha' Hrel']; subst.
  destruct rel as [|b rel], rel' as [|b' rel']; cbn [String.concat] in H.
  - congruence.
  - assert (includes_slash a = true)
      by (rewrite H; apply includes_slash_app).
    congruence.
  - assert (includes_slash a' = true)
      by (rewrite <- H; apply includes_slash_app).
    congruence.
  - apply append_slash_inj in H as [-> H]; [|assumption..].
    f_equal. apply IH; [discriminate | discriminate | assumption..].
Qed.

Lemma file_at_not_nil entries rel content :
  file_at entries rel content -> rel <> [].
Proof. intros [? ? ? _ | ? ? ? ? ? _ _]; discriminate. Qed.

(** The walk reaches every reportable file of the tree. *)
Lemma code_files_reach entries rel content :
  file_at entries rel content ->
  forall directory,
    reportable rel ->
    In ((directory ++ rel)%list, content)
      (flat_map (code_files directory) entries).
Proof.
  induction 1 as [es file c Hin | es folder inner r c Hin Hsub IH];
    intros directory (_ & Hcode & Hfolders); apply in_flat_map;
    eexists; (split; [exact Hin|]); cbn [code_files].
  - cbn [last] in Hcode. apply isCodeFile_iff in Hcode. rewrite Hcode.
    left. reflexivity.
  - pose proof (file_at_not_nil _ _ _ Hsub) as Hr.
    destruct r as [|r0 r]; [congruence|].
    cbn [removelast last] in *. inversion Hfolders as [|? ? Hpass Hrest]; subst.
    destruct (ignored_folder folder) eqn:Hi;
      [apply ignored_folder_iff in Hi; contradiction|].
    replace (directory ++ folder :: r0 :: r)%list
      with ((directory ++ [folder]) ++ r0 :: r)%list
      by (rewrite <- app_assoc; reflexivity).
    apply IH. split; [discriminate|]. split; assumption.
Qed.

(** X14. Every result of the walk is the result of a file the tree holds,
    named by its ['/']-joined path below the root; the name of that file
    has a code extension and none of the folders on the way down to it is
    an ignored one. In a tree whose names hold no ['/'], a file under
    [node_modules], [.git*], [dist] or [build], or with another
    extension, is never reported. And every code file not under such a
    folder has its result in the batch. *)
Theorem X14_walk_reports_only_reachable_code_files
  (parse : string -> result Node) (crawl : Node -> result unit)
  (rootPath : Path) (entries : list FsNode) :
  (forall r,
      In r (processDirectory parse crawl rootPath entries []) ->
      exists rel content,
        file_at entries rel content
        /\ reportable rel
        /\ r = analyzeFileAt parse crawl content (rootPath ++ rel)%list
                (Some rootPath)
        /\ fileName r = slashed rel)
  /\ (forallb names_slash_free entries = true ->
      forall rel content,
        file_at entries rel content ->
        ~ reportable rel ->
        forall r,
          In r (processDirectory parse crawl rootPath entries []) ->
          fileName r <> slashed rel)
  /\ (forall rel content,
         file_at entries rel content ->
         reportable rel ->
         In (analyzeFileAt parse crawl content (rootPath ++ rel)%list
               (Some rootPath))
           (processDirectory parse crawl rootPath entries [])).
Proof.
  assert (Hfound : forall r,
             In r (processDirectory parse crawl rootPath entries []) ->
             exists rel content,
               file_at entries rel content
               /\ reportable rel
               /\ r = analyzeFileAt parse crawl content
                        (rootPath ++ rel)%list (Some rootPath)
               /\ fileName r = slashed rel).
  { intros r. rewrite processDirectory_eq. cbn [app].
    intros Hin. apply in_map_iff in Hin as ([path content] & <- & Hpc).
    apply in_flat_map in Hpc as (e & He & Hpc).
    apply code_files_below in Hpc as (rel & Hfst & Hrel & Hat).
    cbn [fst snd] in *. subst path. exists rel, content.
    split; [|split; [exact Hrel|split; [reflexivity|]]].
    - apply (file_at_incl [e]); [|exact Hat]. intros x [<-|[]]. exact He.
    - unfold analyzed, analyzeFileAt. cbn [fst snd].
      rewrite relative_below.
      destruct (code <- content ;; calculateMetrics parse crawl code);
        reflexivity. }
  split; [exact Hfound|]. split.
  - intros Hfree rel content Hat Hnot r Hin Hname.
    destruct (Hfound r Hin) as (rel' & content' & Hat' & Hrel' & _ & Hname').
    destruct (file_at_slash_free _ _ _ Hat Hfree) as [Hne Hsegs].
    destruct (file_at_slash_free _ _ _ Hat' Hfree) as [Hne' Hsegs'].
    apply Hnot.
    rewrite (slashed_inj rel rel' Hne Hne' Hsegs Hsegs'); [exact Hrel'|].
    congruence.
  - intros rel content Hat Hrel. rewrite processDirectory_eq. cbn [app].
    apply in_map_iff. exists ((rootPath ++ rel)%list, content).
    split; [reflexivity|]. apply code_files_reach; assumption.
Qed.

Lemma X14_witness_sample_tree :
  (exists rel content,
      file_at sample_tree rel content
      /\ reportable rel
      /\ mkFileResult "src/good.js" (Some (mkMetrics 1 1 0 [])) None
         = analyzeFileAt sample_parse accepts content
             (sample_root ++ rel)%list (Some sample_root)
      /\ "src/good.js" = slashed rel)
  /\ "src/good.js" <> slashed ["node_modules"; "dep.js"].
Proof.
  pose proof (X14_walk_reports_only_reachable_code_files sample_parse accepts
                sample_root sample_tree) as (Hfound & Hnever & _).
  split.
  - apply (Hfound (mkFileResult "src/good.js" (Some (mkMetrics 1 1 0 [])) None)).
    right. left. reflexivity.
  - assert (Hat : file_at sample_tree ["node_modules"; "dep.js"]
                    (Ok "const x = 1;")).
    { apply (file_below _ "node_modules" [FsFile "dep.js" (Ok "const x = 1;")]).
      - right. right. left. reflexivity.
      - apply file_here. left. reflexivity. }
    assert (Hnot : ~ reportable ["node_modules"; "dep.js"]).
    { intros (_ & _ & H). inversion H as [|? ? Hpass _]. apply Hpass.
      left. reflexivity. }
    apply (Hnever eq_refl _ _ Hat Hnot
             (mkFileResult "src/good.js" (Some (mkMetrics 1 1 0 [])) None)).
    right. left. reflexivity.
Defined.

(** * Further properties of the reports *)

(** X15. The [function_count] of an inline-code report is the number of
    function nodes of the parsed tree, nested functions included, and
    equals the [NOF] that [calculateMetrics] counted. *)
Theorem X15_function_count_is_number_of_function_nodes
  (parse : string -> result Node) (crawl : Node -> result unit)
  (code requested : string) (ast : Node)
  (babelMetrics : Metrics) :
  parse code = Ok ast ->
  calculateMetrics parse crawl code = Ok babelMetrics ->
  function_count (responseMetrics requested babelMetrics)
  = Z.of_nat (List.length (function_paths ast))
  /\ function_count (responseMetrics requested babelMetrics) = NOF babelMetrics.
Proof.
  intros Hparse Hm.
  destruct (calculateMetrics_records parse crawl code ast babelMetrics Hparse Hm)
    as (_ & Hnof & Hlen & _).
  destruct (responseMetrics_eq requested babelMetrics) as (_ & Hcount & _).
  rewrite Hcount, Hnof, Hlen. split; reflexivity.
Qed.

Lemma X15_witness_two_functions :
  function_count
    (responseMetrics "a.js"
       (mkMetrics 1 1 2
          [mkFunctionRecord (Some "f") 1 1 None None;
           mkFunctionRecord (Some "g") 1 0 None None]))
  = Z.of_nat (List.length (function_paths two_functions))
  /\ function_count
       (responseMetrics "a.js"
          (mkMetrics 1 1 2
             [mkFunctionRecord (Some "f") 1 1 None None;
              mkFunctionRecord (Some "g") 1 0 None None]))
     = 2.
Proof.
  apply (X15_function_count_is_number_of_function_nodes
           (table_parse [(two_functions_source, two_functions)]) accepts
           two_functions_source "a.js" two_functions
           (mkMetrics 1 1 2
              [mkFunctionRecord (Some "f") 1 1 None None;
               mkFunctionRecord (Some "g") 1 0 None None]));
    reflexivity.
Defined.

(** ** The functions by falling score *)

Lemma insert_by_CC_perm f l : Permutation (f :: l) (insert_by_CC f l).
Proof.
  induction l as [|g l IH]; cbn [insert_by_CC]; [reflexivity|].
  destruct (f_CC g <=? f_CC f); [reflexivity|].
  rewrite perm_swap. now apply perm_skip.
Qed.

Lemma insert_by_CC_falling f l : falling l -> falling (insert_by_CC f l).
Proof.
  unfold falling.
  induction l as [|g l IH]; cbn [insert_by_CC]; intros Hl.
  - constructor; constructor.
  - destruct (Z.leb_spec (f_CC g) (f_CC f)) as [Hle|Hgt].
    + constructor; [exact Hl|].
      inversion Hl as [|? ? Hl' Hall]; subst.
      constructor; [exact Hle|].
      rewrite Forall_forall in *. intros h Hh. specialize (Hall h Hh). lia.
    + inversion Hl as [|? ? Hl' Hall]; subst.
      constructor; [apply IH, Hl'|].
      rewrite Forall_forall in *. intros h Hh.
      apply (Permutation_in _ (Permutation_sym (insert_by_CC_perm f l))) in Hh.
      destruct Hh as [<-|Hh]; [lia | apply Hall, Hh].
Qed.

Lemma insert_by_CC_stable cc f l :
  with_CC cc (insert_by_CC f l) = with_CC cc (f :: l).
Proof.
  unfold with_CC.
  induction l as [|g l IH]; cbn [insert_by_CC]; [reflexivity|].
  destruct (Z.leb_spec (f_CC g) (f_CC f)) as [Hle|Hgt]; [reflexivity|].
  cbn [filter] in *. rewrite IH.
  destruct (Z.eqb_spec (f_CC f) cc) as [Ef|Ef];
    destruct (Z.eqb_spec (f_CC g) cc) as [Eg|Eg]; try reflexivity.
  lia.
Qed.

Lemma totalCC_from fs :
  forall start,
    fold_left (fun total f => total + f_CC f) fs start = start + total_CC fs.
Proof.
  induction fs as [|f fs IH]; intros start; cbn [fold_left total_CC fold_right].
  - lia.
  - rewrite IH. fold (total_CC fs). lia.
Qed.

Lemma total_CC_insert f l : total_CC (insert_by_CC f l) = f_CC f + total_CC l.
Proof.
  induction l as [|g l IH]; cbn [insert_by_CC]; [reflexivity|].
  destruct (f_CC g <=? f_CC f); [reflexivity|].
  cbn [total_CC fold_right] in *. fold (total_CC l) in *.
  fold (total_CC (insert_by_CC f l)). rewrite IH. lia.
Qed.

(** X16. What [analyze_target.js] prints: sorting by falling score
    rearranges the records (none lost, none added), puts them in falling
    order of score, keeps records of equal score in the order the
    collector found them, and leaves the total unchanged, which is the sum
    of the scores that the inline-code report averages. *)
Theorem X16_sorted_by_falling_score (fs : list FunctionRecord) :
  Permutation fs (sort_by_CC fs)
  /\ falling (sort_by_CC fs)
  /\ (forall cc, with_CC cc (sort_by_CC fs) = with_CC cc fs)
  /\ totalCC (sort_by_CC fs) = totalCC fs
  /\ totalCC fs = total_CC fs.
Proof.
  unfold totalCC. rewrite !totalCC_from, !Z.add_0_l. unfold sort_by_CC.
  induction fs as [|f fs (Hperm & Hfall & Hstable & Htotal & _)];
    cbn [fold_right].
  - repeat split; try reflexivity. constructor.
  - repeat split.
    + rewrite <- insert_by_CC_perm. now apply perm_skip.
    + apply insert_by_CC_falling, Hfall.
    + intros cc. rewrite insert_by_CC_stable. unfold with_CC in *.
      cbn [filter]. now rewrite Hstable.
    + rewrite total_CC_insert, Htotal. reflexivity.
Qed.

(** * Further properties of else-if chains *)

Lemma else_if_chain_else_type x n :
  type (else_if_chain_else x n) = "IfStatement".
Proof. destruct n; reflexivity. Qed.

Lemma else_if_chain_else_plain x n :
  has_plain_else (else_if_chain_else x n)
  = match n with O => true | S _ => false end.
Proof.
  destruct n as [|n]; [reflexivity|].
  unfold has_plain_else; cbn [else_if_chain_else IfStatement node_of get
    children lookup_field key_is field_opt String.eqb Ascii.eqb Bool.eqb].
  rewrite else_if_chain_else_type. reflexivity.
Qed.

(** The links of a chain closed by an else, hanging off an If: every link
    is charged [1 + (nesting - 1)], the closing else a flat 1. *)
Lemma visit_else_if_else_links fn x n :
  forall p c,
    isIfStatement p = true ->
    score_visit fn (Some p) (Field "alternate") (else_if_chain_else x n) c
    = Ok (mkCounters
            (complexity c + (Z.of_nat n + 1) * (1 + (nesting c - 1)) + 1)
            (nesting c)).
Proof.
  induction n as [|n IH]; intros p c Hp;
    rewrite score_visit_eq;
    set (q := mkPath _ (Field "alternate") (Some p));
    assert (Hq : isIfStatement q = true)
      by apply String.eqb_eq, else_if_chain_else_type;
    assert (He : isElseIf q = true)
      by (unfold isElseIf; cbn [q key parentPath opt_is key_is];
          rewrite Hp; reflexivity);
    rewrite (score_enter_if fn q c Hq); cbn [bind];
    rewrite (enter_control_if q c Hq), He; cbv zeta;
    cbn [q node]; rewrite else_if_chain_else_plain; fold q;
    cbn [else_if_chain_else IfStatement node_of field_opt children app];
    score_walk.
  - rewrite (score_exit_if q _ Hq), He.
    f_equal. apply counters_eq; counters; cbn [Z.of_nat]; lia.
  - rewrite (IH q _ Hq); score_walk.
    rewrite (score_exit_if q _ Hq), He.
    f_equal. apply counters_eq; counters; lia.
Qed.

(** X17. A chain [if / else if / ... / else] with [n] else-if links and a
    closing else scores [(n + 1) * (1 + seed) + 1]: each If of the chain
    costs what the first one costs, and the else, however deep in the
    chain it stands, a flat 1. At seed 0 that is [n + 2]. *)
Theorem X17_else_if_chain_with_else :
  forall fn f x n k parent baseNesting,
    calculateCognitiveComplexity
      (function_with f (else_if_chain_else x n) k parent) baseNesting fn
    = Ok ((Z.of_nat n + 1) * (1 + baseNesting) + 1).
Proof.
  intros fn f x n k parent baseNesting.
  unfold calculateCognitiveComplexity, traverseNode, function_with.
  fold (score_visit_all fn).
  cbn [node FunctionDeclaration node_of children items items_from app].
  score_walk.
  rewrite score_visit_eq.
  set (fp := mkPath _ k parent).
  set (bp := mkPath _ (Field "body") (Some fp)).
  change (score_enter fn bp _) with (Ok (mkCounters 0 baseNesting, false)).
  cbn [bind BlockStatement node_of children items items_from].
  score_walk.
  rewrite score_visit_eq.
  set (q := mkPath _ (Index "body" 0) (Some bp)).
  assert (Hq : isIfStatement q = true)
    by apply String.eqb_eq, else_if_chain_else_type.
  assert (He : isElseIf q = false) by reflexivity.
  rewrite (score_enter_if fn q _ Hq); cbn [bind].
  rewrite (enter_control_if q _ Hq), He; cbv zeta.
  cbn [q node]; rewrite else_if_chain_else_plain; fold q.
  destruct n as [|n];
    cbn [else_if_chain_else IfStatement node_of field_opt children app];
    score_walk.
  - rewrite (score_exit_if q _ Hq), He.
    change (score_exit bp ?c) with c. counters.
    f_equal. cbn [Z.of_nat]. lia.
  - rewrite (visit_else_if_else_links fn x n q _ Hq); score_walk.
    rewrite (score_exit_if q _ Hq), He.
    change (score_exit bp ?c) with c. counters.
    f_equal. lia.
Qed.

(** * Further properties of name resolution *)

(** X18. Name resolution off the mistaken path: a function with an
    identifier of its own other than [anonymous] is reported under it,
    whatever encloses it; and a function with no identifier of its own
    that is neither the initializer of a variable, nor below an object
    property, nor a class or object method is reported as [anonymous], so
    the target of an assignment, a class property or a call that receives
    the function never names it. *)
Theorem X18_own_name_first_anonymous_last :
  (forall p id s,
      get (node p) "id" = Some id ->
      name id = Some s ->
      s <> "anonymous" ->
      resolveName p = Ok (Some s))
  /\ (forall p,
         get (node p) "id" = None ->
         opt_is isVariableDeclarator (parentPath p) = false ->
         opt_is isObjectProperty (parentPath p) = false ->
         isClassMethod p || isObjectMethod p = false ->
         resolveName p = Ok (Some "anonymous")).
Proof.
  split; [exact resolveName_own_identifier|].
  intros p Hid Hvar Hprop Hmethod.
  rewrite (resolveName_unnamed p Hid), Hmethod.
  unfold parent_identifier.
  destruct (parentPath p) as [q|]; cbn [opt_is] in *; [|reflexivity].
  rewrite Hvar, Hprop. reflexivity.
Qed.

Lemma X18_witness_names :
  resolveName
    (initializer_path "foo"
       (FunctionExpression (Some "bar") [] (BlockStatement [])))
  = Ok (Some "bar")
  /\ resolveName assigned_function_path = Ok (Some "anonymous").
Proof.
  split.
  - apply (proj1 X18_own_name_first_anonymous_last _ (Identifier "bar") "bar");
      [reflexivity | reflexivity | discriminate].
  - apply (proj2 X18_own_name_first_anonymous_last); reflexivity.
Defined.

(** * Further properties of the average *)

(** X19. The [toFixed(2)] step of [complexity_avg] rounds to the nearest
    hundredth, a tie going up: for a finite float of magnitude [v / d]
    (with [d] a power of two) the hundredths [n] it prints satisfy
    [-1/2 < n - 100 * v / d <= 1/2]. *)
Theorem X19_toFixed2_rounds_to_nearest_hundredth x s m e n :
  Prim2SF x = S754_finite s m e ->
  toFixed2 x = Some n ->
  let d := 2 ^ Z.max 0 (- e) in
  let v := Zpos m * 2 ^ Z.max 0 e in
  - d < 2 * (n * d - 100 * v) <= d.
Proof. apply toFixed2_nearest. Qed.

Lemma X19_witness_one_eighth :
  - 2 ^ Z.max 0 (- -55) <
  2 * (13 * 2 ^ Z.max 0 (- -55)
       - 100 * (Zpos 4503599627370496 * 2 ^ Z.max 0 (-55)))
  <= 2 ^ Z.max 0 (- -55).
Proof.
  apply (X19_toFixed2_rounds_to_nearest_hundredth 0.125%float false
           4503599627370496 (-55) 13); reflexivity.
Defined.

(** * The collector and the scorer together *)

(** X20. What the collector records for a function is its score at seed 0
    plus, for every ancestor that is a function, an If, a loop, a Switch
    or a Catch, one for every structural node of the function: a function
    nested [b] such levels deep with [w] structural nodes of its own is
    recorded [b * w] above its score at top level. *)
Theorem X20_recorded_score_by_depth code p r cc0 :
  records code p r ->
  calculateCognitiveComplexity p 0 (f_name r) = Ok cc0 ->
  f_CC r
  = cc0
    + Z.of_nat (List.length (filter opens_nesting (ancestors p)))
      * nesting_weight_all (children (node p)).
Proof.
  intros (_ & Hcc & _) H0.
  unfold calculateCognitiveComplexity, traverseNode in *.
  fold (score_visit_all (f_name r)) in *.
  destruct (score_visit_all (f_name r) (Some p) (children (node p))
              (mkCounters 0 0)) as [c|m] eqn:Hv; cbn [bind] in H0;
    [|discriminate].
  injection H0 as <-.
  pose proof (score_visit_all_shift (f_name r) (Some p) (children (node p))
                0 (baseNestingOf p) _ c Hv) as Hs.
  unfold shift in Hs at 1. cbn [complexity nesting] in Hs.
  rewrite !Z.add_0_l in Hs. rewrite Hs in Hcc. cbn [bind] in Hcc.
  injection Hcc as <-. unfold shift. cbn [complexity].
  unfold baseNestingOf, ancestors.
  destruct (parentPath p) as [q|]; [|cbn; lia].
  rewrite count_ancestors_eq. lia.
Qed.

Lemma X20_witness_nested_declaration :
  3 = 1 + Z.of_nat (List.length
                      (filter opens_nesting (ancestors nested_declaration_path)))
          * nesting_weight_all (children (node nested_declaration_path)).
Proof.
  apply (X20_recorded_score_by_depth "" nested_declaration_path
           (mkFunctionRecord (Some "g") 0 3 None None) 1).
  - repeat split; vm_compute; reflexivity.
  - vm_compute; reflexivity.
Defined.
